(** * irishep: a verification development for the spark-hep-query glue layer

    The development embeds the Python sources
      - irishep/datasets/dataset.py   (class Dataset)
      - irishep/analysis/accumulator.py (class Accumulator)
      - irishep/config.py             (class Config)
      - irishep/app.py                (class App)
    together with the parts of their collaborators (Python's [re] module,
    Python truthiness and [+=], the Spark DataFrame engine) that the
    properties below depend on. *)

From Stdlib Require Import ZArith Ascii String.
From stdpp Require Import base tactics option list strings gmap sets.

(** ** Exceptions and the error monad

    Python code either returns a value or raises.  [result A] is the
    outcome of a call; [Raise] carries the exception. *)

Inductive exn :=
| AnalysisException (column : string) (* Spark: the column cannot be resolved *)
| TypeError                           (* Python: unsupported operand types *)
| re_error                            (* re.compile rejected the pattern *)
| LookupFailure (key : string)        (* a collaborator could not find a key *)
| Unmodelled.                         (* the input leaves the modelled fragment *)

Inductive result (A : Type) :=
| Ok (a : A)
| Raise (e : exn).
Arguments Ok {A} a.
Arguments Raise {A} e.

#[global] Instance result_ret : MRet result := λ A a, Ok a.
#[global] Instance result_bind : MBind result := λ A B f m,
  match m with
  | Ok a => f a
  | Raise e => Raise e
  end.
#[global] Instance result_fmap : FMap result := λ A B f m,
  match m with
  | Ok a => Ok (f a)
  | Raise e => Raise e
  end.

(** [[f x for x in l]] where [f] may raise: the first exception wins. *)
Fixpoint traverse {A B} (f : A → result B) (l : list A) : result (list B) :=
  match l with
  | [] => Ok []
  | x :: l' => y ← f x; ys ← traverse f l'; Ok (y :: ys)
  end.

(** ** Python's [re] module, restricted to the syntax the program produces

    [columns_for_physics_objects] builds its pattern from parentheses, [|],
    [_], [.], [*] and the characters of the caller's group names.  The
    fragment below covers literals, [.], [*], groups and alternation;
    a pattern using any other metacharacter is reported as [Unmodelled]. *)

Module re.

Inductive regex :=
| Empty                     (* no string at all; arises from derivatives *)
| Eps                       (* the empty string *)
| Lit (c : ascii)
| Any                       (* [.]: any character except a newline *)
| Cat (r1 r2 : regex)
| Alt (r1 r2 : regex)
| Star (r : regex)
| Group (r : regex).        (* [( ... )] *)

(** One level of the parser's state: the branches already closed by a
    [|] and the items of the branch being read, most recent first. *)
Record frame := Frame { alts : list regex; items : list regex }.

Definition empty_frame : frame := Frame [] [].

Definition seq_regex (its : list regex) : regex :=
  fold_left (λ acc r, Cat r acc) its Eps.

Definition close_frame (f : frame) : regex :=
  fold_left (λ acc r, Alt r acc) (alts f) (seq_regex (items f)).

Definition push_item (r : regex) (f : frame) : frame :=
  Frame (alts f) (r :: items f).

Definition next_branch (f : frame) : frame :=
  Frame (seq_regex (items f) :: alts f) [].

Definition is_repeat (r : regex) : bool :=
  match r with Star _ => true | _ => false end.

(** The metacharacters of [sre_parse.SPECIAL_CHARS] that the fragment
    does not interpret. *)
Definition unmodelled_special (c : ascii) : bool :=
  bool_decide (c ∈ ["\"; "["; "{"; "+"; "?"; "^"; "$"]%char).

Fixpoint parse (stack : list frame) (top : frame) (p : list ascii)
  : result regex :=
  match p with
  | [] =>
      match stack with
      | [] => Ok (close_frame top)
      | _ :: _ => Raise re_error        (* missing ), unterminated subpattern *)
      end
  | c :: p' =>
      if Ascii.eqb c "(" then parse (top :: stack) empty_frame p'
      else if Ascii.eqb c ")" then
        match stack with
        | [] => Raise re_error          (* unbalanced parenthesis *)
        | outer :: stack' =>
            parse stack' (push_item (Group (close_frame top)) outer) p'
        end
      else if Ascii.eqb c "|" then parse stack (next_branch top) p'
      else if Ascii.eqb c "*" then
        match items top with
        | [] => Raise re_error          (* nothing to repeat *)
        | r :: its =>
            if is_repeat r then Raise re_error   (* multiple repeat *)
            else parse stack (Frame (alts top) (Star r :: its)) p'
        end
      else if Ascii.eqb c "." then parse stack (push_item Any top) p'
      else if unmodelled_special c then Raise Unmodelled
      else parse stack (push_item (Lit c) top) p'
  end.

(** [re.compile(pattern)] *)
Definition compile (pattern : string) : result regex :=
  parse [] empty_frame (list_ascii_of_string pattern).

Fixpoint nullable (r : regex) : bool :=
  match r with
  | Empty => false
  | Eps => true
  | Lit _ => false
  | Any => false
  | Cat r1 r2 => nullable r1 && nullable r2
  | Alt r1 r2 => nullable r1 || nullable r2
  | Star _ => true
  | Group r => nullable r
  end.

Definition newline : ascii := ascii_of_nat 10.

(** Brzozowski derivative: the strings [w] such that [c :: w] is matched. *)
Fixpoint deriv (c : ascii) (r : regex) : regex :=
  match r with
  | Empty => Empty
  | Eps => Empty
  | Lit c' => if Ascii.eqb c c' then Eps else Empty
  | Any => if Ascii.eqb c newline then Empty else Eps
  | Cat r1 r2 =>
      if nullable r1 then Alt (Cat (deriv c r1) r2) (deriv c r2)
      else Cat (deriv c r1) r2
  | Alt r1 r2 => Alt (deriv c r1) (deriv c r2)
  | Star r1 => Cat (deriv c r1) (Star r1)
  | Group r1 => deriv c r1
  end.

(** Does some prefix of [s] match [r]?  This is the truth value of the
    match object returned by [r.match(s)], which anchors at the start of
    the string only. *)
Fixpoint match_prefix (r : regex) (s : list ascii) : bool :=
  nullable r ||
  match s with
  | [] => false
  | c :: s' => match_prefix (deriv c r) s'
  end.

Definition matches (r : regex) (s : string) : bool :=
  match_prefix r (list_ascii_of_string s).

(** The words of an expression: the declarative reading against which
    the matcher is checked. *)
Inductive lang : regex → list ascii → Prop :=
| lang_Eps : lang Eps []
| lang_Lit c : lang (Lit c) [c]
| lang_Any c : c ≠ newline → lang Any [c]
| lang_Cat r1 r2 u v : lang r1 u → lang r2 v → lang (Cat r1 r2) (u ++ v)
| lang_Alt_l r1 r2 u : lang r1 u → lang (Alt r1 r2) u
| lang_Alt_r r1 r2 u : lang r2 u → lang (Alt r1 r2) u
| lang_Star_nil r : lang (Star r) []
| lang_Star_app r u v : lang r u → lang (Star r) v → lang (Star r) (u ++ v)
| lang_Group r u : lang r u → lang (Group r) u.

End re.

(** ** Python truthiness and in-place addition

    [if val1:] asks the value for its truth value and [val1 += val2] asks
    its type for the in-place addition; both belong to the value's type.
    [None] is falsy and supports no addition. *)

Class Addable (V : Type) := {
  truth : V → bool;               (* bool(v) *)
  iadd : V → V → result V         (* v += w, the value then bound to v *)
}.

Definition py_truth `{Addable V} (v : option V) : bool :=
  match v with
  | None => false
  | Some x => truth x
  end.

Definition py_iadd `{Addable V} (v w : option V) : result (option V) :=
  match v, w with
  | Some x, Some y => Some <$> iadd x y
  | _, _ => Raise TypeError
  end.

(** Python integers: zero is falsy, [+=] is addition. *)
#[global] Instance int_addable : Addable Z := {|
  truth z := bool_decide (z ≠ 0%Z);
  iadd a b := Ok (a + b)%Z
|}.

(** Python lists: the empty list is falsy, [+=] extends. *)
#[global] Instance list_addable {A} : Addable (list A) := {|
  truth l := match l with [] => false | _ :: _ => true end;
  iadd a b := Ok (a ++ b)
|}.

(** [collections.Counter], the standard library's histogram: a counter
    with no key is falsy; [+=] adds the counts key by key and then drops
    every key whose count is not positive ([_keep_positive]). *)
Definition Counter := gmap string Z.

Definition keep_positive (c : gmap string Z) : gmap string Z :=
  filter (λ kv, (0 < kv.2)%Z) c.

#[global] Instance Counter_addable : Addable (gmap string Z) := {|
  truth c := bool_decide (c ≠ ∅);
  iadd a b := Ok (keep_positive (union_with (λ x y, Some (x + y)%Z) a b))
|}.

(** ** irishep/analysis/accumulator.py *)

Module Accumulator.
Section methods.
Context `{Addable V}.

Definition zero (value : option V) : option V := value.

Definition addInPlace (val1 val2 : option V) : result (option V) :=
  if py_truth val1 then py_iadd val1 val2
  else Ok val2.

End methods.
End Accumulator.

(** ** The Spark DataFrame engine, as far as [Dataset] uses it

    A DataFrame is immutable: every operation returns a new frame.  A frame
    is a row count and an ordered list of columns; a column has a name, a
    type written as Spark prints it in [dtypes], and one cell per row.

    The engine resolves a name as its analyzer does with the default
    setting [spark.sql.caseSensitive = false]: the columns whose names
    equal the name when letter case is ignored are collected under the
    name as it was written, and the name denotes a column when they all
    are one and the same; a name that nothing answers to, or that
    different columns answer to, cannot be resolved.  A frame here has no
    attribute identifiers: columns that agree in type and content once
    they carry the same name count as one attribute, as when a column is
    selected twice.  Names are compared after ASCII letters are put in
    lower case; names with a dot or a backquote are paths and quotations
    for the analyzer, and only names made of letters, digits and
    underscores are resolved here. *)

Module spark.

Inductive cell :=
| Null
| Bool (b : bool)
| Int (z : Z)
| Str (s : string)
| BoolArray (l : list (option bool))   (* array<boolean>; None is a null element *)
| IntArray (l : list (option Z)).      (* array<int> *)

#[global] Instance cell_eq_dec : EqDecision cell.
Proof. solve_decision. Defined.

Record column := mk_column {
  col_name : string;
  col_type : string;
  col_data : list cell
}.

#[global] Instance column_eq_dec : EqDecision column.
Proof. solve_decision. Defined.

Record DataFrame := mk_frame {
  df_count : nat;
  df_columns : list column
}.

(** [df.columns], [df.dtypes], [df.count()] *)
Definition columns (df : DataFrame) : list string :=
  col_name <$> df_columns df.
Definition dtypes (df : DataFrame) : list (string * string) :=
  (λ c, (col_name c, col_type c)) <$> df_columns df.
Definition count (df : DataFrame) : nat := df_count df.

(** The analyzer compares names with [equalsIgnoreCase]. *)
Definition lower_char (c : ascii) : ascii :=
  let n := nat_of_ascii c in
  if (65 <=? n) && (n <=? 90) then ascii_of_nat (n + 32) else c.

Definition lower (s : string) : string :=
  string_of_list_ascii (lower_char <$> list_ascii_of_string s).

Definition identifier_char (c : ascii) : bool :=
  let n := nat_of_ascii c in
  (48 <=? n) && (n <=? 57) || (65 <=? n) && (n <=? 90)
  || (97 <=? n) && (n <=? 122) || (n =? 95).

(** A name of letters, digits and underscores: no wildcard, no path, no
    quotation. *)
Definition identifier (s : string) : bool :=
  match list_ascii_of_string s with
  | [] => false
  | cs => forallb identifier_char cs
  end.

Definition rename (n : string) (c : column) : column :=
  mk_column n (col_type c) (col_data c).

(** The columns that answer to a name, under that name. *)
Definition candidates (n : string) (df : DataFrame) : list column :=
  rename n <$> filter (λ c, lower (col_name c) = lower n) (df_columns df).

(** The column a name denotes in a frame, if it denotes one. *)
Definition lookup_column (n : string) (df : DataFrame) : option column :=
  match candidates n df with
  | c :: cs =>
      if identifier n && bool_decide (Forall (λ c', c' = c) cs)
      then Some c else None
  | [] => None
  end.

(** pyspark [Column] objects are unevaluated expressions. *)
Inductive Column :=
| col (name : string)             (* a reference, as in df["name"] *)
| cast (c : Column) (to : string) (* c.cast(to) *)
| lit (s : string).               (* lit(s), a constant string column *)

(** The engine parses the target of a cast and prints types without
    blanks: ["array<int >"] denotes the type printed ["array<int>"]. *)
Definition type_name (s : string) : string :=
  string_of_list_ascii
    (filter (λ c, c ≠ " "%char) (list_ascii_of_string s)).

Definition bool_to_int (b : bool) : Z := if b then 1 else 0.

Definition widen_bool_array (v : cell) : cell :=
  match v with
  | BoolArray l => IntArray (option_map bool_to_int <$> l)
  | _ => v
  end.

(** A cast keeps the name of the column it is applied to.  Only the
    conversion the program requests is given a meaning on the data. *)
Definition cast_column (to : string) (c : column) : result column :=
  let target := type_name to in
  if bool_decide (col_type c = target) then Ok c
  else if bool_decide (col_type c = "array<boolean>" ∧ target = "array<int>")
  then Ok (mk_column (col_name c) target (widen_bool_array <$> col_data c))
  else Raise Unmodelled.

(** A reference that cannot be resolved raises [AnalysisException], be it
    unknown or ambiguous. *)
Fixpoint eval (df : DataFrame) (e : Column) : result column :=
  match e with
  | col n =>
      match lookup_column n df with
      | Some c => Ok c
      | None =>
          if identifier n then Raise (AnalysisException n)
          else Raise Unmodelled
      end
  | cast e' to => c ← eval df e'; cast_column to c
  | lit s => Ok (mk_column s "string" (replicate (df_count df) (Str s)))
  end.

(** [df.select(list of Column)] *)
Definition select (df : DataFrame) (es : list Column) : result DataFrame :=
  cs ← traverse (eval df) es;
  Ok (mk_frame (df_count df) cs).

(** A name given to [select] stands for the column it denotes, and the
    name ["*"] for all columns of the frame. *)
Definition named (df : DataFrame) (n : string) : result (list column) :=
  if bool_decide (n = "*") then Ok (df_columns df)
  else c ← eval df (col n); Ok [c].

(** [df.select(list of names)] *)
Definition select_names (df : DataFrame) (ns : list string)
  : result DataFrame :=
  css ← traverse (named df) ns;
  Ok (mk_frame (df_count df) (concat css)).

(** [df[name]] *)
Definition getitem (df : DataFrame) (n : string) : result Column :=
  if bool_decide (n ∈ columns df) then Ok (col n)
  else _ ← eval df (col n); Ok (col n).

(** [df.withColumn(name, e)]: every column that answers to the name is
    replaced, in its place, by the new column; when there is none the new
    column is appended. *)
Definition withColumn (df : DataFrame) (n : string) (e : Column)
  : result DataFrame :=
  c ← eval df e;
  let c' := rename n c in
  if bool_decide (lower n ∈ lower <$> columns df)
  then Ok (mk_frame (df_count df)
             ((λ old, if bool_decide (lower (col_name old) = lower n)
                      then c' else old)
                <$> df_columns df))
  else Ok (mk_frame (df_count df) (df_columns df ++ [c'])).

End spark.

(** ** irishep/datasets/dataset.py *)

(** [")|(".join(xs)] *)
Fixpoint join (sep : string) (xs : list string) : string :=
  match xs with
  | [] => ""
  | [x] => x
  | x :: xs' => x +:+ sep +:+ join sep xs'
  end.

Module Dataset.
Import spark.

Record t := mk { name : string; dataframe : DataFrame }.

Definition pyarrow_column_coverters : gmap string (Column → Column) :=
  {[ "array<boolean>" := λ c, cast c "array<int >" ]}.

Definition _pyarrow_compatble_column (c : Column) (col_type : string)
  : Column :=
  match pyarrow_column_coverters !! col_type with
  | Some convert => convert c
  | None => c
  end.

Definition __init__ (name : string) (dataframe : DataFrame) : result t :=
  if bool_decide ("dataset" ∉ spark.columns dataframe)
  then df ← withColumn dataframe "dataset" (lit name); Ok (mk name df)
  else Ok (mk name dataframe).

Definition count (self : t) : nat := spark.count (dataframe self).
Definition columns (self : t) : list string := spark.columns (dataframe self).
Definition columns_with_types (self : t) : list (string * string) :=
  spark.dtypes (dataframe self).

Definition columns_for_physics_objects (self : t)
    (physics_objects : list string) : result (list string) :=
  let physics_obj_count_cols := (λ c, "n" +:+ c) <$> physics_objects in
  let physics_obj_count_re :=
    "(" +:+ join ")|(" physics_obj_count_cols +:+ ")" in
  let physics_obj_re := "(" +:+ join ")|(" physics_objects +:+ ")_.*" in
  r ← re.compile
        ("(" +:+ physics_obj_re +:+ ")|(" +:+ physics_obj_count_re +:+ ")");
  Ok (filter (λ c, re.matches r c) (columns self)).

Definition count_column_for_physics_object (physics_object : string)
  : string :=
  "n" +:+ physics_object.

Definition retained : list string :=
  ["dataset"; "run"; "luminosityBlock"; "event"].

(** The comprehension bound to [columns3] in [select_columns]. *)
Definition columns3 (self : t) (projected : DataFrame) : result (list Column) :=
  traverse (λ c, e ← getitem projected c.1;
                 Ok (_pyarrow_compatble_column e c.2))
           (dtypes projected).

Section select.
(** [list(s)] enumerates a Python set in an order the language does not
    fix: it depends on the elements and on how the set was built.
    [set_order l s] stands for the order in which the set [s], built from
    the request [l], is enumerated. *)
Variable set_order : list string → gset string → list string.

Definition columns2 (columns : list string) : gset string :=
  list_to_set columns ∪ list_to_set retained.

Definition select_columns (self : t) (columns : list string) : result t :=
  projected ← select_names (dataframe self)
                (set_order columns (columns2 columns));
  cs ← columns3 self projected;
  df ← select (dataframe self) cs;
  __init__ (name self) df.

(** Dataset objects live in the interpreter's heap; a call receives the
    address of [self] and returns the address of the object it built.
    Nothing in [select_columns] assigns to an attribute of [self]. *)
Definition select_columns_at (h : gmap positive t) (self : positive)
    (columns : list string) : result (positive * gmap positive t) :=
  match h !! self with
  | None => Raise Unmodelled
  | Some obj =>
      new ← select_columns obj columns;
      let l := fresh (dom h) in
      Ok (l, <[l := new]> h)
  end.

End select.

End Dataset.

(** ** irishep/config.py

    A keyword argument that the caller leaves out is [None] here and takes
    the default of the signature. *)

Module Config.
Section config.
Context {DM : Type}.

Record t := mk {
  dataset_manager : option DM;
  master : string;
  app_name : string;
  num_partitions : Z
}.

Definition __init__ (dataset_manager : option DM) (master : option string)
    (app_name : option string) (num_partitions : option Z) : t :=
  mk dataset_manager
     (default "local" master)
     (default "spark-hep" app_name)
     (default 10%Z num_partitions).
End config.
Arguments t : clear implicits.
End Config.

(** ** irishep/app.py

    The dataset manager and the executor are collaborators whose code is
    not part of the package: they are taken as records of methods acting on
    a state [W] of their own.  [App.__init__] copies [config.executor] and
    [config.dataset_manager]; an [App] is the record of those attributes. *)

Module App.
Section app.
Context {W : Type}.

(** A method of a collaborator: it may raise and may change [W]. *)
Definition method (A : Type) : Type := W → result A * W.

Record DatasetManager := {
  provisioned : W → bool;                      (* the attribute read by [datasets] *)
  provision : method unit;
  get_names : method (list string);
  get_file_list : string → method (list string)
}.

Record Executor := {
  read_files : string → list string → method Dataset.t
}.

Record t := mk {
  executor : Executor;
  dataset_manager : DatasetManager
}.

(** What the program does to the outside, in order. *)
Inductive event :=
| Provision
| GetFileList (dataset_name : string)
| Print (files : list string)
| ReadFiles (dataset_name : string) (files : list string).

(** A computation threads the collaborators' state and the trace of
    events; an exception ends it and keeps the state reached. *)
Definition prog (A : Type) : Type := W * list event → result A * (W * list event).

Definition ret {A} (a : A) : prog A := λ σ, (Ok a, σ).

Definition bind {A B} (m : prog A) (k : A → prog B) : prog B :=
  λ σ, match m σ with
       | (Ok a, σ') => k a σ'
       | (Raise e, σ') => (Raise e, σ')
       end.

Definition invoke {A} (e : event) (m : method A) : prog A :=
  λ σ, let '(r, w') := m σ.1 in (r, (w', σ.2 ++ [e])).

Definition print (files : list string) : prog unit :=
  λ σ, (Ok tt, (σ.1, σ.2 ++ [Print files])).

Notation "x <- m ;; k" := (bind m (λ x, k))
  (at level 100, m at next level, right associativity).

(** The [datasets] property *)
Definition datasets (self : t) : prog DatasetManager :=
  λ σ, if negb (provisioned (dataset_manager self) σ.1)
       then (_ <- invoke Provision (provision (dataset_manager self)) ;;
             ret (dataset_manager self)) σ
       else ret (dataset_manager self) σ.

Definition read_dataset (self : t) (dataset_name : string) : prog Dataset.t :=
  dm <- datasets self ;;
  files <- invoke (GetFileList dataset_name) (get_file_list dm dataset_name) ;;
  _ <- print files ;;
  dataset <- invoke (ReadFiles dataset_name files)
               (read_files (executor self) dataset_name files) ;;
  ret dataset.

(** The number of calls of [provision] recorded in a trace. *)
Definition is_provision (e : event) : bool :=
  match e with Provision => true | _ => false end.

Definition provisions (tr : list event) : nat :=
  length (filter (λ e, is_provision e) tr).

End app.
Arguments DatasetManager : clear implicits.
Arguments Executor : clear implicits.
Arguments t : clear implicits.
End App.

(** ** The selection of columns as the specification words it *)

Abbreviation chars := list_ascii_of_string.

(** [s.startswith(p)] *)
Definition startswith (s p : string) : bool :=
  bool_decide (chars p `prefix_of` chars s).

(** A column qualifies for a group [g] when it is the count column
    ["n" + g] or starts with [g] followed by an underscore. *)
Definition qualifies (groups : list string) (c : string) : bool :=
  existsb (λ g, bool_decide (c = Dataset.count_column_for_physics_object g)
                || startswith c (g +:+ "_"))
          groups.

Definition columns_for_groups (groups : list string) (all_columns : list string)
  : list string :=
  filter (λ c, qualifies groups c) all_columns.

(** ** The selection of columns as the compiled pattern makes it

    A name is plain when it has none of the characters that [re] reads as
    syntax.  For plain names the pattern selects a column that starts with
    one of the groups before the last, or with the last group and an
    underscore, or with the count name of any group. *)

Definition special_chars : list ascii :=
  ["."; "\"; "["; "{"; "("; ")"; "*"; "+"; "?"; "^"; "$"; "|"]%char.

Definition plain_char (c : ascii) : Prop := c ∉ special_chars.

Definition plain (g : string) : Prop := Forall plain_char (chars g).

Definition selects (init : list string) (last : string) (c : string) : bool :=
  existsb (startswith c) init
  || startswith c (last +:+ "_")
  || existsb (λ g, startswith c (Dataset.count_column_for_physics_object g))
       (init ++ [last]).

(** The expression a run of plain characters parses to. *)
Definition lits (g : list ascii) : re.regex :=
  foldr (λ c acc, re.Cat (re.Lit c) acc) re.Eps g.

(** A branch "(g)" of an alternation. *)
Definition branch (g : string) : re.regex :=
  re.Cat (re.Group (lits (chars g))) re.Eps.

Definition alternation (bs : list re.regex) (base : re.regex) : re.regex :=
  fold_left (λ acc r, re.Alt r acc) bs base.

(** The expression compiled for the groups [G ++ [g]]. *)
Definition compiled (G : list string) (g : string) : re.regex :=
  re.Alt
    (re.Cat (re.Group
       (alternation (reverse (branch <$> G))
          (re.Cat (re.Group (lits (chars g)))
             (re.Cat (re.Lit "_") (re.Cat (re.Star re.Any) re.Eps))))) re.Eps)
    (re.Cat (re.Group
       (alternation
          (reverse (branch <$> (Dataset.count_column_for_physics_object <$> G)))
          (branch (Dataset.count_column_for_physics_object g)))) re.Eps).

(** A frame with the given column names and no rows. *)
Definition frame_of_names (ns : list string) : spark.DataFrame :=
  spark.mk_frame 0 ((λ n, spark.mk_column n "float" []) <$> ns).

(** What the cast table makes of a column: a column of booleans arrays
    becomes a column of integer arrays of the same name, any other column
    is kept. *)
Definition compatible (c : spark.column) : spark.column :=
  if bool_decide (spark.col_type c = "array<boolean>")
  then spark.mk_column (spark.col_name c) "array<int>"
         (spark.widen_bool_array <$> spark.col_data c)
  else c.

(** The columns a projection reads from the table: those the engine's
    [select] of the effective names returns, each of which its own name
    denotes in the table. *)
Definition sources (set_order : list string → gset string → list string)
    (self : Dataset.t) (columns : list string) (cs : list spark.column) : Prop :=
  spark.select_names (Dataset.dataframe self)
    (set_order columns (Dataset.columns2 columns))
  = Ok (spark.mk_frame (spark.df_count (Dataset.dataframe self)) cs) ∧
  Forall (λ c, spark.lookup_column (spark.col_name c) (Dataset.dataframe self)
               = Some c) cs.

(** Names of letters, digits and underscores, which the engine reads as
    they are written ... *)
Definition identifiers (names : list string) : Prop :=
  Forall (λ n, spark.identifier n = true) names.

(** ... and which stay distinct when letter case is ignored: no name of
    such a list is ambiguous. *)
Definition well_named (names : list string) : Prop :=
  identifiers names ∧ NoDup (spark.lower <$> names).

(** The column [Dataset.__init__] adds. *)
Definition tag_column (name : string) (rows : nat) : spark.column :=
  spark.mk_column "dataset" "string" (replicate rows (spark.Str name)).

(** Outcomes that agree when the order of the columns is left aside. *)
Definition same_up_to_order (r1 r2 : result Dataset.t) : Prop :=
  match r1, r2 with
  | Ok d1, Ok d2 =>
      Dataset.name d1 = Dataset.name d2 ∧
      spark.df_count (Dataset.dataframe d1) = spark.df_count (Dataset.dataframe d2) ∧
      spark.df_columns (Dataset.dataframe d1)
      ≡ₚ spark.df_columns (Dataset.dataframe d2)
  | Raise _, Raise _ => True
  | _, _ => False
  end.

(** An enumeration that takes no account of how the set was built. *)
Definition elements_order (history : list string) (X : gset string)
  : list string :=
  elements X.

(** ** Sample data: the table of the demo, two events *)

Definition demo_frame : spark.DataFrame :=
  spark.mk_frame 2
    [ spark.mk_column "run" "int" [spark.Int 1; spark.Int 1];
      spark.mk_column "luminosityBlock" "int" [spark.Int 7; spark.Int 8];
      spark.mk_column "event" "bigint" [spark.Int 100; spark.Int 101];
      spark.mk_column "nElectron" "int" [spark.Int 1; spark.Int 0];
      spark.mk_column "Electron_pt" "array<float>" [spark.Null; spark.Null];
      spark.mk_column "Muon_tightId" "array<boolean>"
        [spark.BoolArray [Some true; None; Some false]; spark.BoolArray []] ].

(** The same table, tagged as the data of another sample. *)
Definition demo_tagged_frame : spark.DataFrame :=
  spark.mk_frame 2
    (spark.df_columns demo_frame
       ++ [spark.mk_column "dataset" "string"
             [spark.Str "TTbar"; spark.Str "TTbar"]]).

Definition demo_dataset : Dataset.t := Dataset.mk "DY Jets" demo_tagged_frame.

(** A dataset manager over a state that is its [provisioned] flag, and an
    executor that reads the demo table whatever the files. *)
Definition demo_manager : App.DatasetManager bool := {|
  App.provisioned w := w;
  App.provision w := (Ok tt, true);
  App.get_names w := (Ok ["DY Jets"; "TTbar"], w);
  App.get_file_list n w :=
    if bool_decide (n = "DY Jets") then (Ok ["f1.root"; "f2.root"], w)
    else (Raise (LookupFailure n), w)
|}.

Definition demo_executor : App.Executor bool := {|
  App.read_files n files w := (Dataset.__init__ n demo_frame, w)
|}.

Definition demo_app : App.t bool := App.mk demo_executor demo_manager.

(** The numbers of opening and of closing parentheses in a text. *)
Definition opens (s : list ascii) : nat :=
  length (filter (λ c, c = "("%char) s).

Definition closes (s : list ascii) : nat :=
  length (filter (λ c, c = ")"%char) s).

(** The text of all group names together. *)
Definition names_text (groups : list string) : list ascii :=
  concat (chars <$> groups).

(** A text all of whose characters the fragment of [re] interprets. *)
Definition modelled (s : list ascii) : Prop :=
  Forall (λ c, re.unmodelled_special c = false) s.

(** ** The accumulator in use

    [Accumulator.__init__] registers the accumulator with the initial value
    [None]; the framework then replaces the value by
    [addInPlace(value, term)] for every term that is added.  [add_all] is
    the value after the terms have been added in turn. *)
Fixpoint add_all `{Addable V} (value : option V) (terms : list (option V))
  : result (option V) :=
  match terms with
  | [] => Ok value
  | term :: terms' =>
      value' ← Accumulator.addInPlace value term; add_all value' terms'
  end.

(** * Properties *)

(** ** Config *)

(** C9: a Config built without [master], [app_name] and [num_partitions]
    holds "local", "spark-hep" and 10; values that are supplied, and the
    dataset manager, are stored as given. *)
Theorem Config_init_defaults {DM : Type} (dm : option DM) :
  Config.master (Config.__init__ dm None None None) = "local" ∧
  Config.app_name (Config.__init__ dm None None None) = "spark-hep" ∧
  Config.num_partitions (Config.__init__ dm None None None) = 10%Z ∧
  Config.dataset_manager (Config.__init__ dm None None None) = dm ∧
  ∀ (m a : string) (p : Z) (m' a' : option string) (p' : option Z),
    Config.master (Config.__init__ dm (Some m) a' p') = m ∧
    Config.app_name (Config.__init__ dm m' (Some a) p') = a ∧
    Config.num_partitions (Config.__init__ dm m' a' (Some p)) = p ∧
    Config.dataset_manager (Config.__init__ dm m' a' p') = dm.
Proof. repeat split. Qed.

(** ** Accumulator *)

Section accumulator_facts.
Context `{Addable V}.

Lemma zero_id (value : option V) : Accumulator.zero value = value.
Proof. reflexivity. Qed.

Lemma addInPlace_None (val2 : option V) :
  Accumulator.addInPlace None val2 = Ok val2.
Proof. reflexivity. Qed.

Lemma addInPlace_truthy (val1 val2 : option V) :
  py_truth val1 = true →
  Accumulator.addInPlace val1 val2 = py_iadd val1 val2.
Proof. unfold Accumulator.addInPlace. by intros ->. Qed.

Lemma addInPlace_falsy (val1 val2 : option V) :
  py_truth val1 = false →
  Accumulator.addInPlace val1 val2 = Ok val2.
Proof. unfold Accumulator.addInPlace. by intros ->. Qed.

End accumulator_facts.

(** C2, at an empty histogram.  The existing value is an empty Counter,
    which is not None but is falsy; the new value holds one bin with a
    negative weight.  [addInPlace] hands back the new value, whereas the
    Counter's own [+=] yields the empty Counter. *)
Theorem addInPlace_empty_Counter :
  let val1 : option (gmap string Z) := Some ∅ in
  let val2 : option (gmap string Z) := Some {[ "x" := (-1)%Z ]} in
  val1 ≠ None ∧
  Accumulator.addInPlace val1 val2 = Ok val2 ∧
  py_iadd val1 val2 = Ok (Some ∅) ∧
  Accumulator.addInPlace val1 val2 ≠ py_iadd val1 val2.
Proof.
  cbv zeta. split; [done|]. split; [reflexivity|].
  split; [by vm_compute|]. by vm_compute.
Qed.

(** ** Regular expressions: the matcher, the parser and the pattern *)

Section re_facts.
Import re.

Lemma nullable_lang r : nullable r = true ↔ lang r [].
Proof.
  induction r as [| | c | |r1 IH1 r2 IH2|r1 IH1 r2 IH2|r IH|r IH]; simpl.
  - split; [done|]. inversion 1.
  - split; [constructor|done].
  - split; [done|]. inversion 1.
  - split; [done|]. inversion 1.
  - rewrite andb_true_iff, IH1, IH2. split.
    + intros [H1 H2]. by apply (lang_Cat _ _ [] []).
    + inversion 1 as [| | |? ? u v Hu Hv Hr Huv| | | | |]; subst.
      apply app_eq_nil in Huv as [-> ->]. done.
  - rewrite orb_true_iff, IH1, IH2. split.
    + intros [H1|H2]; [by apply lang_Alt_l | by apply lang_Alt_r].
    + inversion 1; subst; [by left | by right].
  - split; [constructor|done].
  - rewrite IH. split; [by constructor|]. by inversion 1.
Qed.

(** A non-empty word of a starred expression starts with a non-empty word
    of the expression. *)
Lemma lang_Star_cons r c w :
  lang (Star r) (c :: w) →
  ∃ u v, w = u ++ v ∧ lang r (c :: u) ∧ lang (Star r) v.
Proof.
  intros Hs. remember (Star r) as sr eqn:Hsr. remember (c :: w) as cw eqn:Hcw.
  revert r c w Hsr Hcw.
  induction Hs as [| | | | | | |r' u v Hu _ Hv IHv|]; intros r0 c0 w0 Hsr Hcw;
    try discriminate.
  injection Hsr as ->. destruct u as [|c' u].
  - simpl in Hcw. by apply IHv.
  - simpl in Hcw. injection Hcw as -> <-. by exists u, v.
Qed.

Lemma deriv_lang c r w : lang (deriv c r) w ↔ lang r (c :: w).
Proof.
  revert w. induction r as [| | c' | |r1 IH1 r2 IH2|r1 IH1 r2 IH2|r IH|r IH];
    intros w; simpl.
  - split; inversion 1.
  - split; inversion 1.
  - destruct (Ascii.eqb_spec c c') as [->|Hne].
    + split; inversion 1; subst; constructor.
    + split; inversion 1; subst; done.
  - destruct (Ascii.eqb_spec c newline) as [->|Hne].
    + split; inversion 1; subst; done.
    + split; inversion 1; subst; by constructor.
  - assert (lang (Cat (deriv c r1) r2) w ↔
            ∃ u v, w = u ++ v ∧ lang r1 (c :: u) ∧ lang r2 v) as Hcat.
    { split.
      - inversion 1 as [| | |? ? u v Hu Hv| | | | |]; subst.
        exists u, v. by rewrite <- IH1.
      - intros (u & v & -> & Hu & Hv). constructor; [by apply IH1|done]. }
    assert (lang (Cat r1 r2) (c :: w) ↔
            (∃ u v, w = u ++ v ∧ lang r1 (c :: u) ∧ lang r2 v) ∨
            (lang r1 [] ∧ lang r2 (c :: w))) as Hsplit.
    { split.
      - inversion 1 as [| | |? ? u v Hu Hv Hr Huv| | | | |]; subst.
        destruct u as [|c0 u]; simpl in Huv.
        + right. by subst.
        + injection Huv as -> <-. left. by exists u, v.
      - intros [(u & v & -> & Hu & Hv)|[H1 H2]].
        + by apply (lang_Cat _ _ (c :: u) v).
        + by apply (lang_Cat _ _ [] (c :: w)). }
    rewrite Hsplit. destruct (nullable r1) eqn:Hn.
    + apply nullable_lang in Hn. split.
      * inversion 1; subst; [left; by apply Hcat|right; by rewrite <- IH2].
      * intros [H|[_ H]]; [apply lang_Alt_l; by apply Hcat|].
        apply lang_Alt_r. by apply IH2.
    + rewrite Hcat. split; [by left|]. intros [H|[H _]]; [done|].
      apply nullable_lang in H. congruence.
  - split.
    + inversion 1; subst; [apply lang_Alt_l|apply lang_Alt_r];
        by (apply IH1 || apply IH2).
    + inversion 1; subst; [apply lang_Alt_l|apply lang_Alt_r];
        by (apply IH1 || apply IH2).
  - split.
    + inversion 1 as [| | |? ? u v Hu Hv| | | | |]; subst.
      apply (lang_Star_app _ (c :: u) v); [by apply IH|done].
    + intros Hs. apply lang_Star_cons in Hs as (u & v & -> & Hu & Hv).
      constructor; [by apply IH|done].
  - split.
    + intros Hd. constructor. by apply IH.
    + inversion 1; subst. by apply IH.
Qed.

(** [match_prefix] decides whether a prefix of the string is a word of
    the expression. *)
Lemma match_prefix_lang r s :
  match_prefix r s = true ↔ ∃ u v, s = u ++ v ∧ lang r u.
Proof.
  revert r. induction s as [|c s IH]; intros r; simpl.
  - rewrite orb_false_r, nullable_lang. split.
    + intros Hn. by exists [], [].
    + intros (u & v & Huv & Hu). symmetry in Huv.
      apply app_eq_nil in Huv as [-> ->]. done.
  - rewrite orb_true_iff, nullable_lang, IH. split.
    + intros [Hn|(u & v & -> & Hu)].
      * by exists [], (c :: s).
      * exists (c :: u), v. split; [done|]. by apply deriv_lang.
    + intros (u & v & Huv & Hu). destruct u as [|c' u]; [by left|].
      simpl in Huv. injection Huv as <- ->. right.
      exists u, v. split; [done|]. by apply deriv_lang.
Qed.
Lemma plain_char_eqb c x :
  plain_char c → x ∈ special_chars → Ascii.eqb c x = false.
Proof.
  intros Hp Hx. destruct (Ascii.eqb_spec c x) as [->|]; [|done].
  by destruct Hp.
Qed.

Lemma parse_plain_char stack top c p :
  plain_char c →
  parse stack top (c :: p) = parse stack (push_item (Lit c) top) p.
Proof.
  intros Hp. simpl.
  rewrite !(plain_char_eqb c)
    by (done || (apply (bool_decide_unpack _); by vm_compute)).
  unfold unmodelled_special. rewrite bool_decide_eq_false_2; [done|].
  intros Hin. apply Hp. clear Hp. revert c Hin. apply Forall_forall.
  apply (bool_decide_unpack _). by vm_compute.
Qed.

Lemma parse_plain g stack top rest :
  Forall plain_char g →
  parse stack top (g ++ rest)
  = parse stack (Frame (alts top) (reverse (Lit <$> g) ++ items top)) rest.
Proof.
  intros Hg. revert top. induction Hg as [|c g Hc _ IH]; intros top.
  - by destruct top.
  - simpl app. rewrite parse_plain_char by done. rewrite IH. simpl.
    by rewrite reverse_cons, <- app_assoc.
Qed.

Lemma seq_regex_lits g : seq_regex (reverse (Lit <$> g)) = lits g.
Proof.
  unfold seq_regex, lits. generalize Eps.
  induction g as [|c g IH]; intros acc; [done|].
  rewrite fmap_cons, reverse_cons, fold_left_app. simpl. by rewrite IH.
Qed.
Lemma chars_app a b : chars (a +:+ b) = chars a ++ chars b.
Proof. induction a as [|c a IH]; simpl; [done|by rewrite IH]. Qed.

Lemma join_cons sep g G :
  G ≠ [] → join sep (g :: G) = g +:+ sep +:+ join sep G.
Proof. by destruct G. Qed.

Lemma close_plain_group g :
  close_frame (Frame [] (reverse (Lit <$> g) ++ [])) = lits g.
Proof. unfold close_frame. simpl. by rewrite app_nil_r, seq_regex_lits. Qed.

Lemma parse_join G g st bs rest :
  Forall plain G → plain g →
  parse (Frame bs [] :: st) empty_frame (chars (join ")|(" (G ++ [g])) ++ rest)
  = parse (Frame (reverse (branch <$> G) ++ bs) [] :: st)
      (Frame [] (reverse (Lit <$> chars g))) rest.
Proof.
  intros HG Hg. revert bs. induction HG as [|a G Ha _ IH]; intros bs.
  - simpl. rewrite parse_plain by done. simpl. by rewrite app_nil_r.
  - rewrite <- app_comm_cons, join_cons by (by destruct G).
    rewrite !chars_app, <- !app_assoc, parse_plain by done.
    simpl. rewrite close_plain_group.
    change (next_branch (push_item (Group (lits (chars a))) (Frame bs [])))
      with (Frame (branch a :: bs) []).
    rewrite IH. by rewrite reverse_cons, <- app_assoc.
Qed.
Lemma plain_count_column g : plain g → plain (Dataset.count_column_for_physics_object g).
Proof.
  intros Hg. unfold plain, Dataset.count_column_for_physics_object. simpl. constructor; [|done].
  apply (bool_decide_unpack _). by vm_compute.
Qed.

Lemma parse_join_fresh G g st rest :
  Forall plain G → plain g →
  parse (empty_frame :: st) empty_frame (chars (join ")|(" (G ++ [g])) ++ rest)
  = parse (Frame (reverse (branch <$> G)) [] :: st)
      (Frame [] (reverse (Lit <$> chars g))) rest.
Proof.
  intros HG Hg. unfold empty_frame at 1.
  rewrite parse_join by done. by rewrite app_nil_r.
Qed.

Lemma compile_pattern G g :
  Forall plain G → plain g →
  compile ("(" +:+ ("(" +:+ join ")|(" (G ++ [g]) +:+ ")_.*") +:+ ")|(" +:+
           ("(" +:+ join ")|(" ((λ c, "n" +:+ c) <$> (G ++ [g])) +:+ ")") +:+ ")")
  = Ok (compiled G g).
Proof.
  intros HG Hg. unfold compile.
  rewrite fmap_app. simpl fmap.
  rewrite !chars_app. simpl chars. rewrite <- !app_assoc. simpl.
  rewrite (parse_join_fresh G g) by done. simpl.
  rewrite (parse_join_fresh ((λ c, "n" +:+ c) <$> G) ("n" +:+ g)).
  - simpl. unfold close_frame. simpl.
    change (Lit "n" :: list_fmap ascii regex Lit (chars ("" +:+ g)))
      with (Lit <$> chars (Dataset.count_column_for_physics_object g)).
    by rewrite !seq_regex_lits.
  - apply Forall_fmap. eapply Forall_impl; [exact HG|].
    intros x. apply plain_count_column.
  - by apply plain_count_column.
Qed.
Lemma lang_Eps_iff u : lang Eps u ↔ u = [].
Proof. split; [by inversion 1|intros ->; constructor]. Qed.

Lemma lang_Group_iff r u : lang (Group r) u ↔ lang r u.
Proof. split; [by inversion 1|by constructor]. Qed.

Lemma lang_Cat_iff r1 r2 u :
  lang (Cat r1 r2) u ↔ ∃ v w, u = v ++ w ∧ lang r1 v ∧ lang r2 w.
Proof.
  split.
  - inversion 1 as [| | |? ? v w Hv Hw| | | | |]; subst. by exists v, w.
  - intros (v & w & -> & Hv & Hw). by constructor.
Qed.

Lemma lang_Alt_iff r1 r2 u : lang (Alt r1 r2) u ↔ lang r1 u ∨ lang r2 u.
Proof.
  split.
  - inversion 1; subst; [by left|by right].
  - intros [H|H]; [by apply lang_Alt_l|by apply lang_Alt_r].
Qed.

Lemma lang_Cat_Eps r u : lang (Cat r Eps) u ↔ lang r u.
Proof.
  rewrite lang_Cat_iff. split.
  - intros (v & w & -> & Hv & Hw). apply lang_Eps_iff in Hw as ->.
    by rewrite app_nil_r.
  - intros Hu. exists u, []. rewrite app_nil_r. split; [done|].
    split; [done|constructor].
Qed.

Lemma lang_lits g u : lang (lits g) u ↔ u = g.
Proof.
  revert u. induction g as [|c g IH]; intros u; simpl.
  - apply lang_Eps_iff.
  - rewrite lang_Cat_iff. split.
    + intros (v & w & -> & Hv & Hw). apply IH in Hw as ->. by inversion Hv.
    + intros ->. exists [c], g. split; [done|]. split; [constructor|by apply IH].
Qed.

Lemma lang_branch g u : lang (branch g) u ↔ u = chars g.
Proof. unfold branch. by rewrite lang_Cat_Eps, lang_Group_iff, lang_lits. Qed.

Lemma lang_alternation bs base u :
  lang (alternation bs base) u ↔ lang base u ∨ ∃ r, r ∈ bs ∧ lang r u.
Proof.
  unfold alternation. revert base. induction bs as [|b bs IH]; intros base; simpl.
  - split; [by left|]. intros [H|(r & Hr & _)]; [done|].
    by apply elem_of_nil in Hr.
  - rewrite IH, lang_Alt_iff. split.
    + intros [[Hb|Hbase]|(r & Hr & Hu)].
      * right. exists b. split; [by left|done].
      * by left.
      * right. exists r. split; [by right|done].
    + intros [Hbase|(r & Hr & Hu)]; [left; by right|].
      apply elem_of_cons in Hr as [->|Hr]; [left; by left|].
      right. by exists r.
Qed.

Lemma lang_branches G base u :
  lang (alternation (reverse (branch <$> G)) base) u
  ↔ lang base u ∨ ∃ a, a ∈ G ∧ u = chars a.
Proof.
  rewrite lang_alternation. split.
  - intros [H|(r & Hr & Hu)]; [by left|right].
    apply elem_of_reverse, list_elem_of_fmap in Hr as (a & -> & Ha).
    exists a. split; [done|]. by apply lang_branch.
  - intros [H|(a & Ha & ->)]; [by left|right].
    exists (branch a). split; [|by apply lang_branch].
    apply elem_of_reverse, list_elem_of_fmap. by exists a.
Qed.

Lemma lang_properties g u :
  lang (Cat (Group (lits g)) (Cat (Lit "_") (Cat (Star Any) Eps))) u
  ↔ ∃ w, u = g ++ "_"%char :: w ∧ lang (Star Any) w.
Proof.
  rewrite lang_Cat_iff. split.
  - intros (v & w & -> & Hv & Hw).
    apply lang_Group_iff, lang_lits in Hv as ->.
    apply lang_Cat_iff in Hw as (v1 & w1 & -> & Hv1 & Hw1).
    inversion Hv1; subst. apply (proj1 (lang_Cat_Eps _ _)) in Hw1.
    by exists w1.
  - intros (w & -> & Hw). exists g, ("_"%char :: w). split; [done|].
    split; [by apply lang_Group_iff, lang_lits|].
    apply (lang_Cat _ _ ["_"%char] w); [constructor|by apply lang_Cat_Eps].
Qed.

Lemma lang_compiled G g u :
  lang (compiled G g) u ↔
  (∃ a, a ∈ G ∧ u = chars a) ∨
  (∃ w, u = chars g ++ "_"%char :: w ∧ lang (Star Any) w) ∨
  (∃ a, a ∈ G ++ [g] ∧ u = chars (Dataset.count_column_for_physics_object a)).
Proof.
  unfold compiled.
  rewrite lang_Alt_iff, !lang_Cat_Eps, !lang_Group_iff, !lang_branches.
  rewrite lang_properties, lang_branch. split.
  - intros [[H|H]|[H|(a & Ha & ->)]].
    + right. by left.
    + by left.
    + right. right. exists g. split; [|done]. apply elem_of_app. right. by left.
    + apply list_elem_of_fmap in Ha as (a' & -> & Ha').
      right. right. exists a'. split; [|done]. apply elem_of_app. by left.
  - intros [H|[H|(a & Ha & ->)]].
    + left. by right.
    + left. by left.
    + right. apply elem_of_app in Ha as [Ha|Ha].
      * right. exists (Dataset.count_column_for_physics_object a). split; [|done].
        apply list_elem_of_fmap. by exists a.
      * apply list_elem_of_singleton in Ha as ->. by left.
Qed.

Lemma startswith_true s p :
  startswith s p = true ↔ ∃ k, chars s = chars p ++ k.
Proof. unfold startswith. by rewrite bool_decide_eq_true. Qed.

Lemma existsb_elem_of {A} (f : A → bool) (l : list A) :
  existsb f l = true ↔ ∃ x, x ∈ l ∧ f x = true.
Proof.
  rewrite existsb_exists. split; intros (x & Hx & Hf); exists x;
    (split; [by apply list_elem_of_In|done]).
Qed.

(** The columns the compiled expression matches, said with prefixes. *)
Lemma matches_compiled G g c :
  matches (compiled G g) c = selects G g c.
Proof.
  apply Bool.eq_iff_eq_true. unfold matches, selects.
  rewrite match_prefix_lang, !orb_true_iff, !existsb_elem_of.
  rewrite startswith_true. split.
  - intros (u & v & Huv & Hu). apply lang_compiled in Hu
      as [(a & Ha & ->)|[(w & -> & _)|(a & Ha & ->)]].
    + left. left. exists a. split; [done|]. apply startswith_true. by exists v.
    + left. right. exists (w ++ v). rewrite Huv, chars_app. simpl.
      by rewrite <- !app_assoc.
    + right. exists a. split; [done|]. apply startswith_true. by exists v.
  - intros [[(a & Ha & Hs)|(k & Hk)]|(a & Ha & Hs)].
    + apply startswith_true in Hs as (k & Hk). exists (chars a), k.
      split; [done|]. apply lang_compiled. left. by exists a.
    + rewrite chars_app in Hk. simpl in Hk. rewrite <- app_assoc in Hk.
      exists (chars g ++ ["_"%char]), k. split; [by rewrite <- app_assoc|].
      apply lang_compiled. right. left. exists []. split; [done|constructor].
    + apply startswith_true in Hs as (k & Hk). exists (chars (Dataset.count_column_for_physics_object a)), k.
      split; [done|]. apply lang_compiled. right. right. by exists a.
Qed.

(** For plain group names, [columns_for_physics_objects] returns the
    columns that [selects] describes, in the order of the table. *)
Lemma columns_for_physics_objects_plain (self : Dataset.t) (G : list string) (g : string) :
  Forall plain G → plain g →
  Dataset.columns_for_physics_objects self (G ++ [g])
  = Ok (filter (λ c, selects G g c) (Dataset.columns self)).
Proof.
  intros HG Hg. unfold Dataset.columns_for_physics_objects.
  rewrite compile_pattern by done. simpl. f_equal.
  apply list_filter_iff. intros c. by rewrite matches_compiled.
Qed.

End re_facts.

(** ** Dataset.columns_for_physics_objects *)

(** C1, at columns named as NanoAOD names them.  With the two groups
    GenJet and Muon, the branches of the compiled pattern for the
    properties are "(GenJet)" and "(Muon)_" followed by any characters: the
    underscore belongs to the last group only.  [match] anchors at the
    start of a name only.  So GenJetAK8_pt and nGenJetAK8 are selected
    although they belong to neither group; with the single group GenJet,
    nGenJetAK8 still is. *)
Theorem columns_for_physics_objects_overselects :
  let L := ["nGenJet"; "GenJet_pt"; "GenJetAK8_pt"; "nGenJetAK8";
            "nMuon"; "Muon_pt"; "MET_pt"] in
  let self := Dataset.mk "DY Jets" (frame_of_names L) in
  Dataset.columns self = L ∧
  Dataset.columns_for_physics_objects self ["GenJet"; "Muon"]
    = Ok ["nGenJet"; "GenJet_pt"; "GenJetAK8_pt"; "nGenJetAK8";
          "nMuon"; "Muon_pt"] ∧
  columns_for_groups ["GenJet"; "Muon"] L
    = ["nGenJet"; "GenJet_pt"; "nMuon"; "Muon_pt"] ∧
  Dataset.columns_for_physics_objects self ["GenJet"]
    = Ok ["nGenJet"; "GenJet_pt"; "nGenJetAK8"] ∧
  columns_for_groups ["GenJet"] L = ["nGenJet"; "GenJet_pt"].
Proof.
  cbv zeta. split; [reflexivity|].
  repeat split; by vm_compute.
Qed.

(** ** Comprehensions that may raise *)

Section traverse_facts.
Context {A B : Type} (f : A → result B).

Lemma traverse_cons x l :
  traverse f (x :: l) =
  match f x with
  | Ok y => match traverse f l with Ok ys => Ok (y :: ys) | Raise e => Raise e end
  | Raise e => Raise e
  end.
Proof. reflexivity. Qed.

Lemma traverse_Ok_Forall2 l ys :
  traverse f l = Ok ys ↔ Forall2 (λ x y, f x = Ok y) l ys.
Proof.
  revert ys. induction l as [|x l IH]; intros ys.
  - split.
    + intros [= <-]. constructor.
    + intros Hf. by inversion Hf.
  - rewrite traverse_cons. split.
    + destruct (f x) as [y|e] eqn:Hx; [|done].
      destruct (traverse f l) as [ys'|e] eqn:Hl; [|done].
      intros [= <-]. constructor; [done|]. by apply IH.
    + intros Hf. inversion Hf as [|? y ? ys' Hx Hl]; subst.
      rewrite Hx. apply IH in Hl. by rewrite Hl.
Qed.

Lemma traverse_Raise l e :
  traverse f l = Raise e → ∃ x, x ∈ l ∧ f x = Raise e.
Proof.
  induction l as [|x l IH]; [done|].
  rewrite traverse_cons.
  destruct (f x) as [y|e'] eqn:Hx.
  - destruct (traverse f l) as [ys|e'] eqn:Hl; [done|].
    intros [= <-]. destruct IH as (x' & Hin & Hx'); [done|].
    exists x'. split; [by right | done].
  - intros [= <-]. exists x. split; [by left | done].
Qed.

Lemma traverse_Ok_fmap (g : A → B) l :
  (∀ x, x ∈ l → f x = Ok (g x)) → traverse f l = Ok (g <$> l).
Proof.
  intros Hg. apply traverse_Ok_Forall2.
  apply Forall2_fmap_r, Forall_Forall2_diag, Forall_forall. exact Hg.
Qed.

End traverse_facts.

Lemma traverse_fmap {A B C} (f : B → result C) (h : A → B) (l : list A) :
  traverse f (h <$> l) = traverse (f ∘ h) l.
Proof.
  induction l as [|x l IH]; [done|].
  rewrite fmap_cons, !traverse_cons, IH. done.
Qed.

(** ** The frame engine *)

Section spark_facts.
Import spark.

Lemma rename_name n c : col_name (rename n c) = n.
Proof. done. Qed.

Lemma rename_rename n m c : rename n (rename m c) = rename n c.
Proof. done. Qed.

Lemma rename_self c : rename (col_name c) c = c.
Proof. by destruct c. Qed.

Lemma identifier_not_star n : identifier n = true → n ≠ "*".
Proof. by intros Hid ->. Qed.

Lemma NoDup_fmap_eq {A B} (f : A → B) (l : list A) (x y : A) :
  NoDup (f <$> l) → x ∈ l → y ∈ l → f x = f y → x = y.
Proof.
  induction l as [|z l IH]; intros Hnd Hx Hy Hf.
  - by apply elem_of_nil in Hx.
  - rewrite fmap_cons in Hnd. apply NoDup_cons in Hnd as [Hz Hnd].
    apply elem_of_cons in Hx as [->|Hx], Hy as [->|Hy]; [done| | |by apply IH].
    + exfalso. apply Hz. rewrite Hf. apply list_elem_of_fmap. by exists y.
    + exfalso. apply Hz. rewrite <- Hf. apply list_elem_of_fmap. by exists x.
Qed.

Lemma elem_of_candidates n df c :
  c ∈ candidates n df ↔
  ∃ c0, c0 ∈ df_columns df ∧ lower (col_name c0) = lower n ∧ c = rename n c0.
Proof.
  unfold candidates. rewrite list_elem_of_fmap. split.
  - intros (c0 & -> & Hc0). apply list_elem_of_filter in Hc0 as [Hn Hc0].
    by exists c0.
  - intros (c0 & Hc0 & Hn & ->). exists c0. split; [done|].
    by apply list_elem_of_filter.
Qed.

(** A name denotes a column when some column answers to it and all that
    do are one. *)
Lemma lookup_column_spec n df c :
  lookup_column n df = Some c ↔
  identifier n = true ∧ c ∈ candidates n df ∧
  ∀ c', c' ∈ candidates n df → c' = c.
Proof.
  unfold lookup_column. destruct (candidates n df) as [|c1 cs].
  - split; [done|]. intros (_ & Hin & _). by apply elem_of_nil in Hin.
  - destruct (identifier n); simpl.
    + case_bool_decide as Hall.
      * split.
        -- intros [= <-]. split; [done|]. split; [by left|].
           intros c' Hc'. apply elem_of_cons in Hc' as [->|Hc']; [done|].
           by apply (proj1 (Forall_forall _ _) Hall).
        -- intros (_ & _ & Huniq). f_equal. apply Huniq. by left.
      * split; [done|]. intros (_ & _ & Huniq). exfalso. apply Hall.
        apply Forall_forall. intros c' Hc'.
        rewrite (Huniq c') by (by right). symmetry. apply Huniq. by left.
    + split; [done|]. by intros (? & _).
Qed.

Lemma lookup_column_Some n df c :
  lookup_column n df = Some c →
  col_name c = n ∧ identifier n = true ∧
  ∃ c0, c0 ∈ df_columns df ∧ lower (col_name c0) = lower n ∧ c = rename n c0.
Proof.
  intros (Hid & Hin & _)%lookup_column_spec.
  apply elem_of_candidates in Hin as (c0 & Hc0 & Hn & ->).
  split; [done|]. split; [done|]. by exists c0.
Qed.

Lemma lookup_column_same n df c c0 :
  lookup_column n df = Some c → c0 ∈ df_columns df →
  lower (col_name c0) = lower n → rename n c0 = c.
Proof.
  intros (_ & _ & Huniq)%lookup_column_spec Hc0 Hn.
  apply Huniq, elem_of_candidates. by exists c0.
Qed.

Lemma lookup_column_intro n df c :
  identifier n = true →
  (∃ c0, c0 ∈ df_columns df ∧ lower (col_name c0) = lower n) →
  (∀ c0, c0 ∈ df_columns df → lower (col_name c0) = lower n →
         rename n c0 = c) →
  lookup_column n df = Some c.
Proof.
  intros Hid (c0 & Hc0 & Hn) Huniq. apply lookup_column_spec.
  split; [done|]. split.
  - apply elem_of_candidates. exists c0. split; [done|]. split; [done|].
    symmetry. by apply Huniq.
  - intros c' (c1 & Hc1 & Hn1 & ->)%elem_of_candidates. by apply Huniq.
Qed.

Lemma lookup_column_self n df c :
  lookup_column n df = Some c → lookup_column (col_name c) df = Some c.
Proof. intros Hl. by destruct (lookup_column_Some _ _ _ Hl) as [-> _]. Qed.

(** A column of the frame that its name denotes is what the name denotes. *)
Lemma lookup_column_member df c c1 :
  c ∈ df_columns df → lookup_column (col_name c) df = Some c1 → c1 = c.
Proof.
  intros Hc Hl. rewrite <- (lookup_column_same _ _ _ c Hl Hc eq_refl).
  apply rename_self.
Qed.

Lemma lookup_column_present n df c :
  lookup_column n df = Some c → lower n ∈ lower <$> columns df.
Proof.
  intros (_ & _ & c0 & Hc0 & Hn & _)%lookup_column_Some.
  rewrite <- Hn. apply list_elem_of_fmap. exists (col_name c0).
  split; [done|]. apply list_elem_of_fmap. by exists c0.
Qed.

Lemma lookup_column_absent n df :
  lower n ∉ lower <$> columns df → lookup_column n df = None.
Proof.
  intros Hno. destruct (lookup_column n df) as [c|] eqn:Hl; [|done].
  by apply lookup_column_present in Hl.
Qed.

(** In a frame whose names are distinct when case is ignored, a name
    denotes the column that answers to it. *)
Lemma lookup_column_distinct n df c0 :
  identifier n = true → NoDup (lower <$> columns df) →
  c0 ∈ df_columns df → lower (col_name c0) = lower n →
  lookup_column n df = Some (rename n c0).
Proof.
  intros Hid Hnd Hc0 Hn. apply lookup_column_intro; [done|by exists c0|].
  intros c1 Hc1 Hn1. f_equal.
  unfold columns in Hnd. rewrite <- list_fmap_compose in Hnd.
  apply (NoDup_fmap_eq _ _ _ _ Hnd Hc1 Hc0). simpl. congruence.
Qed.

Lemma lookup_column_NoDup count cs c :
  identifier (col_name c) = true → NoDup (lower <$> (col_name <$> cs)) →
  c ∈ cs → lookup_column (col_name c) (mk_frame count cs) = Some c.
Proof.
  intros Hid Hnd Hc.
  rewrite (lookup_column_distinct (col_name c) (mk_frame count cs) c);
    [by rewrite rename_self|done..].
Qed.

Lemma lookup_column_is_Some n df :
  identifier n = true → NoDup (lower <$> columns df) → n ∈ columns df →
  ∃ c, lookup_column n df = Some c ∧ c ∈ df_columns df.
Proof.
  intros Hid Hnd Hin. apply list_elem_of_fmap in Hin as (c & -> & Hc).
  exists c. split; [|done].
  rewrite (lookup_column_distinct (col_name c) df c); [|done..].
  by rewrite rename_self.
Qed.

Lemma eval_col n df c :
  eval df (col n) = Ok c ↔ lookup_column n df = Some c.
Proof.
  simpl. destruct (lookup_column n df) as [c'|].
  - split; by intros [= ->].
  - split; [|done]. by destruct (identifier n).
Qed.

Lemma eval_col_Raise n df :
  identifier n = true → lookup_column n df = None →
  eval df (col n) = Raise (AnalysisException n).
Proof. intros Hid Hl. simpl. by rewrite Hl, Hid. Qed.

Lemma type_name_array_int : type_name "array<int >" = "array<int>".
Proof. reflexivity. Qed.

(** *** Selecting by names *)

Lemma named_star df : named df "*" = Ok (df_columns df).
Proof. done. Qed.

Lemma named_name df n :
  n ≠ "*" →
  named df n = match lookup_column n df with
               | Some c => Ok [c]
               | None => if identifier n then Raise (AnalysisException n)
                         else Raise Unmodelled
               end.
Proof.
  intros Hn. unfold named. rewrite bool_decide_eq_false_2 by done. simpl.
  destruct (lookup_column n df); [done|]. by destruct (identifier n).
Qed.

Lemma named_Ok df n cs :
  named df n = Ok cs →
  (n = "*" ∧ cs = df_columns df) ∨
  (n ≠ "*" ∧ ∃ c, lookup_column n df = Some c ∧ cs = [c]).
Proof.
  destruct (decide (n = "*")) as [->|Hn].
  - rewrite named_star. intros [= <-]. by left.
  - rewrite named_name by done. destruct (lookup_column n df) as [c|].
    + intros [= <-]. right. split; [done|]. by exists c.
    + by destruct (identifier n).
Qed.

Lemma select_names_unfold df ns :
  select_names df ns
  = match traverse (named df) ns with
    | Ok css => Ok (mk_frame (df_count df) (concat css))
    | Raise e => Raise e
    end.
Proof. done. Qed.

Lemma select_names_count df ns p :
  select_names df ns = Ok p → df_count p = df_count df.
Proof.
  rewrite select_names_unfold. destruct (traverse _ _); [|done].
  by intros [= <-].
Qed.

(** What a selection by names holds: columns that their names denote in
    the frame ... *)
Lemma select_names_members df ns p c :
  select_names df ns = Ok p → c ∈ df_columns p →
  c ∈ df_columns df ∨ ∃ n, n ∈ ns ∧ lookup_column n df = Some c.
Proof.
  rewrite select_names_unfold.
  destruct (traverse (named df) ns) as [css|] eqn:Ht; [|done].
  intros [= <-]. simpl. apply traverse_Ok_Forall2 in Ht.
  induction Ht as [|n cs ns css Hn _ IH]; simpl.
  - by intros ?%elem_of_nil.
  - intros [Hc|Hc]%elem_of_app.
    + apply named_Ok in Hn as [(_ & ->)|(_ & c' & Hl & ->)]; [by left|].
      apply list_elem_of_singleton in Hc as ->. right. exists n.
      split; [by left|done].
    + destruct (IH Hc) as [?|(m & Hm & Hl)]; [by left|].
      right. exists m. split; [by right|done].
Qed.

(** ... and, for every name other than the wildcard, the column it
    denotes. *)
Lemma select_names_has df ns p n :
  select_names df ns = Ok p → n ∈ ns → n ≠ "*" →
  ∃ c, lookup_column n df = Some c ∧ c ∈ df_columns p.
Proof.
  rewrite select_names_unfold.
  destruct (traverse (named df) ns) as [css|] eqn:Ht; [|done].
  intros [= <-]. simpl. apply traverse_Ok_Forall2 in Ht.
  induction Ht as [|m cs ns css Hm _ IH]; simpl.
  - by intros ?%elem_of_nil.
  - intros [->|Hn]%elem_of_cons Hne.
    + apply named_Ok in Hm as [(-> & _)|(_ & c & Hl & ->)]; [done|].
      exists c. split; [done|]. apply elem_of_app. left. by left.
    + destruct (IH Hn Hne) as (c & Hl & Hc). exists c. split; [done|].
      apply elem_of_app. by right.
Qed.

Lemma select_names_Ok df ns cs :
  Forall2 (λ n c, lookup_column n df = Some c) ns cs →
  select_names df ns = Ok (mk_frame (df_count df) cs).
Proof.
  intros HF. rewrite select_names_unfold.
  assert (traverse (named df) ns = Ok ((λ c, [c]) <$> cs)) as ->.
  { apply traverse_Ok_Forall2, Forall2_fmap_r.
    eapply Forall2_impl; [exact HF|]. intros n c Hl. simpl.
    rewrite named_name, Hl; [done|].
    apply identifier_not_star. by apply lookup_column_Some in Hl as (_ & ? & _). }
  do 2 f_equal. clear HF. induction cs as [|c cs IH]; [done|].
  rewrite fmap_cons. simpl. by rewrite IH.
Qed.

Lemma select_names_inv df ns p :
  Forall (λ n, n ≠ "*") ns → select_names df ns = Ok p →
  ∃ cs, p = mk_frame (df_count df) cs ∧
        Forall2 (λ n c, lookup_column n df = Some c) ns cs.
Proof.
  intros Hns. rewrite select_names_unfold.
  destruct (traverse (named df) ns) as [css|] eqn:Ht; [|done].
  intros [= <-]. apply traverse_Ok_Forall2 in Ht.
  induction Ht as [|n cs ns css Hn _ IH].
  - exists []. split; [done|constructor].
  - apply Forall_cons in Hns as [Hne Hns].
    destruct (IH Hns) as (cs' & [= Hcs'] & HF).
    apply named_Ok in Hn as [(-> & _)|(_ & c & Hl & ->)]; [done|].
    exists (c :: cs'). simpl. rewrite Hcs'. split; [done|]. by constructor.
Qed.

(** A selection of identifiers raises at the first name that does not
    denote a column. *)
Lemma select_names_Raise df ns n :
  Forall (λ n, identifier n = true) ns →
  n ∈ ns → lookup_column n df = None →
  ∃ m, m ∈ ns ∧ lookup_column m df = None ∧
       select_names df ns = Raise (AnalysisException m).
Proof.
  intros Hids Hn Hl. rewrite select_names_unfold.
  induction ns as [|m ns IH]; [by apply elem_of_nil in Hn|].
  apply Forall_cons in Hids as [Hid Hids]. rewrite traverse_cons.
  rewrite named_name by (by apply identifier_not_star).
  destruct (lookup_column m df) as [c|] eqn:Hm.
  - apply elem_of_cons in Hn as [->|Hn]; [congruence|].
    destruct (IH Hids Hn) as (m' & Hm' & Hl' & Hr).
    exists m'. split; [by right|]. split; [done|].
    destruct (traverse (named df) ns); [done|]. by injection Hr as ->.
  - rewrite Hid. exists m. split; [by left|]. by split.
Qed.

End spark_facts.

(** ** Dataset *)

Section dataset_facts.
Import spark.

Lemma compatble_column_boolean_array (c : Column) :
  Dataset._pyarrow_compatble_column c "array<boolean>" = cast c "array<int >".
Proof. reflexivity. Qed.

Lemma compatble_column_other (c : Column) (ty : string) :
  ty ≠ "array<boolean>" → Dataset._pyarrow_compatble_column c ty = c.
Proof.
  intros Hty. unfold Dataset._pyarrow_compatble_column,
    Dataset.pyarrow_column_coverters.
  by rewrite lookup_singleton_ne.
Qed.

Lemma compatible_name c : col_name (compatible c) = col_name c.
Proof. unfold compatible. by case_bool_decide. Qed.

Lemma compatible_idemp c : compatible (compatible c) = compatible c.
Proof.
  unfold compatible at 1. case_bool_decide as Hty; [|done].
  exfalso. revert Hty. unfold compatible. by case_bool_decide.
Qed.

Lemma compatible_data_length c :
  length (col_data (compatible c)) = length (col_data c).
Proof. unfold compatible. case_bool_decide; [|done]. simpl. by rewrite length_fmap. Qed.

Lemma compatible_type c : col_type (compatible c) ≠ "array<boolean>".
Proof. unfold compatible. by case_bool_decide. Qed.

Lemma compatible_rename n c : compatible (rename n c) = rename n (compatible c).
Proof. unfold compatible. simpl. by case_bool_decide. Qed.

Lemma compatible_fmap_names (cs : list column) :
  col_name <$> (compatible <$> cs) = col_name <$> cs.
Proof.
  rewrite <- list_fmap_compose. apply list_fmap_ext.
  intros _ c _. apply compatible_name.
Qed.

Lemma compatible_tag name rows :
  compatible (tag_column name rows) = tag_column name rows.
Proof. done. Qed.

(** Evaluating the expression the cast table yields for a column gives the
    compatible column: the cast of a boolean array never raises. *)
Lemma eval_compatble_column df c :
  lookup_column (col_name c) df = Some c →
  eval df (Dataset._pyarrow_compatble_column (col (col_name c)) (col_type c))
  = Ok (compatible c).
Proof.
  intros Hl. unfold compatible. case_bool_decide as Hty.
  - rewrite Hty, compatble_column_boolean_array. simpl. rewrite Hl. simpl.
    unfold mbind, result_bind, cast_column. rewrite type_name_array_int, Hty.
    reflexivity.
  - rewrite compatble_column_other by done. simpl. by rewrite Hl.
Qed.

(** It can only be evaluated when the name of the column denotes a
    column. *)
Lemma eval_compatble_column_inv df n ty c :
  eval df (Dataset._pyarrow_compatble_column (col n) ty) = Ok c →
  ∃ c', lookup_column n df = Some c'.
Proof.
  destruct (decide (ty = "array<boolean>")) as [->|Hty].
  - rewrite compatble_column_boolean_array. simpl.
    destruct (lookup_column n df) as [c'|]; [by exists c'|].
    by destruct (identifier n).
  - rewrite compatble_column_other by done. intros Hev%eval_col. by exists c.
Qed.

Lemma columns3_Ok self count cs :
  Dataset.columns3 self (mk_frame count cs)
  = Ok ((λ c, Dataset._pyarrow_compatble_column (col (col_name c)) (col_type c))
          <$> cs).
Proof.
  unfold Dataset.columns3, dtypes. simpl.
  apply traverse_Ok_Forall2.
  apply Forall2_fmap_l, Forall2_fmap_r, Forall_Forall2_diag, Forall_forall.
  intros c Hc. simpl. unfold getitem.
  rewrite bool_decide_eq_true_2; [done|].
  unfold columns. simpl. apply list_elem_of_fmap. by exists c.
Qed.

Lemma init_tagged name df :
  "dataset" ∈ columns df → Dataset.__init__ name df = Ok (Dataset.mk name df).
Proof.
  intros Hin. unfold Dataset.__init__.
  by rewrite bool_decide_eq_false_2 by (by intros Hn; apply Hn).
Qed.

Lemma init_untagged name df :
  "dataset" ∉ columns df →
  Dataset.__init__ name df
  = Ok (Dataset.mk name
          (mk_frame (df_count df)
             (if bool_decide (lower "dataset" ∈ lower <$> columns df)
              then (λ old, if bool_decide (lower (col_name old) = lower "dataset")
                           then tag_column name (df_count df) else old)
                     <$> df_columns df
              else df_columns df ++ [tag_column name (df_count df)]))).
Proof.
  intros Hn. unfold Dataset.__init__. rewrite bool_decide_eq_true_2 by done.
  unfold withColumn. cbn [eval]. unfold mbind, result_bind.
  by case_bool_decide.
Qed.

(** The table of a Dataset built from an untagged frame: the tag is a
    column of it; every column that answers to "dataset" is the tag; the
    other columns are columns of the frame; and a frame that nothing in
    answers to "dataset" is extended by the tag. *)
Lemma init_untagged_columns name df self :
  "dataset" ∉ columns df → Dataset.__init__ name df = Ok self →
  let tag := tag_column name (df_count df) in
  Dataset.name self = name ∧
  df_count (Dataset.dataframe self) = df_count df ∧
  tag ∈ df_columns (Dataset.dataframe self) ∧
  (∀ c, c ∈ df_columns (Dataset.dataframe self) →
        lower (col_name c) = lower "dataset" → c = tag) ∧
  (∀ c, c ∈ df_columns (Dataset.dataframe self) →
        c = tag ∨ (c ∈ df_columns df ∧ lower (col_name c) ≠ lower "dataset")) ∧
  (lower "dataset" ∉ lower <$> columns df →
   df_columns (Dataset.dataframe self) = df_columns df ++ [tag]).
Proof.
  intros Hn Hinit tag. rewrite init_untagged in Hinit by done.
  injection Hinit as <-. simpl. split; [done|]. split; [done|].
  case_bool_decide as Hvar.
  - split; [|split; [|split]].
    + unfold columns in Hvar. rewrite <- list_fmap_compose in Hvar.
      apply list_elem_of_fmap in Hvar as (c & Hc & Hin).
      apply list_elem_of_fmap. exists c. split; [|done].
      by rewrite bool_decide_eq_true_2.
    + intros c (c0 & -> & Hc0)%list_elem_of_fmap.
      case_bool_decide; [done|]. intros; done.
    + intros c (c0 & -> & Hc0)%list_elem_of_fmap.
      case_bool_decide; [by left|]. by right.
    + done.
  - split; [|split; [|split]].
    + apply elem_of_app. right. by left.
    + intros c [Hc|Hc]%elem_of_app Hl.
      * exfalso. apply Hvar. rewrite <- Hl. apply list_elem_of_fmap.
        exists (col_name c). split; [done|]. apply list_elem_of_fmap.
        by exists c.
      * by apply list_elem_of_singleton in Hc.
    + intros c [Hc|Hc]%elem_of_app.
      * right. split; [done|]. intros Hl. apply Hvar. rewrite <- Hl.
        apply list_elem_of_fmap. exists (col_name c). split; [done|].
        apply list_elem_of_fmap. by exists c.
      * left. by apply list_elem_of_singleton in Hc.
    + done.
Qed.

(** Every Dataset that is constructed has a "dataset" column. *)
Lemma init_has_dataset name df :
  ∃ self, Dataset.__init__ name df = Ok self ∧ "dataset" ∈ Dataset.columns self.
Proof.
  destruct (decide ("dataset" ∈ columns df)) as [Hin|Hno].
  - eexists. split; [by apply init_tagged|]. done.
  - eexists. split; [by apply init_untagged|].
    destruct (init_untagged_columns name df _ Hno (init_untagged name df Hno))
      as (_ & _ & Htag & _).
    unfold Dataset.columns, columns. apply list_elem_of_fmap.
    by exists (tag_column name (df_count df)).
Qed.

(** What the name "dataset" denotes in it. *)
Lemma init_untagged_lookup name df self :
  "dataset" ∉ columns df → Dataset.__init__ name df = Ok self →
  lookup_column "dataset" (Dataset.dataframe self)
  = Some (tag_column name (df_count df)).
Proof.
  intros Hn Hinit.
  destruct (init_untagged_columns name df self Hn Hinit)
    as (_ & _ & Htag & Hall & _).
  apply lookup_column_intro; [done| |].
  - by exists (tag_column name (df_count df)).
  - intros c Hc Hl. by rewrite (Hall c Hc Hl).
Qed.

End dataset_facts.

(** C3: construction from [(name, dataframe)].  A frame that has a column
    named "dataset" is kept as it is, whatever that column holds.  From
    any other frame a table is built that has a column named "dataset"
    holding [name] in every row; every column of that name is this
    column, and every other column is a column of the frame.  When the
    names of the frame are identifiers none of which is "dataset" in
    another letter case, the column is added as the last one and nothing
    else changes. *)
Theorem Dataset_init_dataset_column (name : string) (df : spark.DataFrame) :
  ("dataset" ∈ spark.columns df →
     Dataset.__init__ name df = Ok (Dataset.mk name df)) ∧
  ("dataset" ∉ spark.columns df →
     ∃ self tag,
       Dataset.__init__ name df = Ok self ∧
       Dataset.name self = name ∧
       spark.df_count (Dataset.dataframe self) = spark.df_count df ∧
       tag ∈ spark.df_columns (Dataset.dataframe self) ∧
       spark.col_name tag = "dataset" ∧
       length (spark.col_data tag) = spark.df_count df ∧
       (∀ row, row < spark.df_count df →
               spark.col_data tag !! row = Some (spark.Str name)) ∧
       (∀ c, c ∈ spark.df_columns (Dataset.dataframe self) →
             spark.col_name c = "dataset" → c = tag) ∧
       (∀ c, c ∈ spark.df_columns (Dataset.dataframe self) →
             c = tag ∨ c ∈ spark.df_columns df) ∧
       (identifiers (spark.columns df) →
        (∀ n, n ∈ spark.columns df → spark.lower n ≠ "dataset") →
        spark.df_columns (Dataset.dataframe self) = spark.df_columns df ++ [tag])).
Proof.
  split.
  - apply init_tagged.
  - intros Hn.
    destruct (init_has_dataset name df) as (self & Hinit & _).
    destruct (init_untagged_columns name df self Hn Hinit)
      as (Hname & Hcount & Htag & Hall & Hother & Happ).
    exists self, (tag_column name (spark.df_count df)).
    split; [done|]. split; [done|]. split; [done|]. split; [done|].
    split; [done|]. split; [apply length_replicate|].
    split; [intros row Hrow; by apply lookup_replicate_2|].
    split; [intros c Hc Hc'; apply Hall; [done|by rewrite Hc']|].
    split; [intros c Hc; destruct (Hother c Hc) as [?|[? _]]; [by left|by right]|].
    intros _ Hvar. apply Happ.
    intros (n & Hl & Hin)%list_elem_of_fmap. by apply (Hvar n).
Qed.

Lemma elem_of_columns2 (columns : list string) (n : string) :
  n ∈ Dataset.columns2 columns ↔ n ∈ columns ∨ n ∈ Dataset.retained.
Proof. unfold Dataset.columns2. set_solver. Qed.

Lemma Forall2_elem_of_l {A B} (P : A → B → Prop) (l : list A) (k : list B)
    (x : A) :
  Forall2 P l k → x ∈ l → ∃ y, y ∈ k ∧ P x y.
Proof.
  intros HF. induction HF as [|x' y' l k Hxy _ IH].
  - by intros ?%elem_of_nil.
  - intros [->|Hx]%elem_of_cons.
    + exists y'. split; [by left|done].
    + destruct (IH Hx) as (y & Hy & Hp). exists y. split; [by right|done].
Qed.

Lemma identifiers_retained : identifiers Dataset.retained.
Proof. by repeat constructor. Qed.

(** What a name denotes in a table of compatible columns, each of which
    its name denotes in the frame they were read from. *)
Lemma projected_lookup (df : spark.DataFrame) (k : nat)
    (cs : list spark.column) (n : string) (c : spark.column) :
  Forall (λ c', spark.lookup_column (spark.col_name c') df = Some c') cs →
  spark.lookup_column n df = Some c →
  (∃ c', c' ∈ cs ∧ spark.lower (spark.col_name c') = spark.lower n) →
  spark.lookup_column n (spark.mk_frame k (compatible <$> cs))
  = Some (compatible c).
Proof.
  intros Hall Hl (c1 & Hc1 & Hn1).
  assert (∀ c', c' ∈ cs → spark.lower (spark.col_name c') = spark.lower n →
                spark.rename n c' = c) as Hsame.
  { intros c' Hc' Hn'.
    pose proof (proj1 (Forall_forall _ _) Hall c' Hc') as Hl'.
    apply lookup_column_Some in Hl' as (_ & _ & c0 & Hc0 & Hn0 & Heq).
    rewrite Heq, rename_rename.
    apply (lookup_column_same n df c c0 Hl Hc0). congruence. }
  apply lookup_column_intro.
  - by apply lookup_column_Some in Hl as (_ & ? & _).
  - exists (compatible c1). split; [|by rewrite compatible_name].
    apply list_elem_of_fmap. by exists c1.
  - intros c' (c2 & -> & Hc2)%list_elem_of_fmap. simpl.
    rewrite compatible_name. intros Hn2.
    by rewrite <- compatible_rename, (Hsame c2 Hc2 Hn2).
Qed.

Section select_columns_facts.
Import spark.
Variable set_order : list string → gset string → list string.
Hypothesis set_order_perm : ∀ l X, set_order l X ≡ₚ elements X.

Lemma elem_of_set_order l X n : n ∈ set_order l X ↔ n ∈ X.
Proof. by rewrite set_order_perm, elem_of_elements. Qed.

Lemma NoDup_set_order l X : NoDup (set_order l X).
Proof. rewrite set_order_perm. apply NoDup_elements. Qed.

Lemma elem_of_order columns n :
  n ∈ set_order columns (Dataset.columns2 columns) ↔
  n ∈ columns ∨ n ∈ Dataset.retained.
Proof. by rewrite elem_of_set_order, elem_of_columns2. Qed.

Lemma identifiers_order columns :
  identifiers columns →
  identifiers (set_order columns (Dataset.columns2 columns)).
Proof.
  intros Hids. apply Forall_forall. intros n [Hn|Hn]%elem_of_order.
  - by apply (proj1 (Forall_forall _ _) Hids).
  - by apply (proj1 (Forall_forall _ _) identifiers_retained).
Qed.

Lemma sources_member self columns cs c :
  sources set_order self columns cs → c ∈ cs →
  lookup_column (col_name c) (Dataset.dataframe self) = Some c.
Proof. intros [_ Hall] Hc. by apply (proj1 (Forall_forall _ _) Hall). Qed.

(** Every effective name other than the wildcard is the name of a
    source, which it denotes in the table. *)
Lemma sources_has self columns cs n :
  sources set_order self columns cs →
  n ∈ columns ∨ n ∈ Dataset.retained → n ≠ "*" →
  ∃ c, lookup_column n (Dataset.dataframe self) = Some c ∧ c ∈ cs ∧
       col_name c = n.
Proof.
  intros [Hsel _] Hn Hne.
  destruct (select_names_has _ _ _ n Hsel) as (c & Hl & Hc);
    [by apply elem_of_order|done|].
  exists c. split; [done|]. split; [done|].
  by apply lookup_column_Some in Hl as [? _].
Qed.

(** For a request of identifiers the sources are the columns the
    effective names denote, in the order of the names. *)
Lemma sources_identifiers self columns cs :
  identifiers columns →
  sources set_order self columns cs ↔
  Forall2 (λ n c, lookup_column n (Dataset.dataframe self) = Some c)
          (set_order columns (Dataset.columns2 columns)) cs.
Proof.
  intros Hids. split.
  - intros [Hsel _]. apply select_names_inv in Hsel as (cs' & [= <-] & HF); [done|].
    eapply Forall_impl; [exact (identifiers_order _ Hids)|].
    intros n. apply identifier_not_star.
  - intros HF. split; [by apply select_names_Ok|].
    clear Hids. induction HF as [|n c ns cs Hl _ IH]; constructor; [|done].
    by eapply lookup_column_self.
Qed.

Lemma Forall2_lookup_names df ns cs :
  Forall2 (λ n c, lookup_column n df = Some c) ns cs → col_name <$> cs = ns.
Proof.
  intros HF. induction HF as [|n c ns cs Hl _ IH]; [done|].
  rewrite fmap_cons, IH. f_equal. by apply lookup_column_Some in Hl as [-> _].
Qed.

Lemma sources_names self columns cs :
  identifiers columns → sources set_order self columns cs →
  col_name <$> cs = set_order columns (Dataset.columns2 columns).
Proof.
  intros Hids Hs%sources_identifiers; [|done].
  by eapply Forall2_lookup_names.
Qed.

Lemma sources_exist self columns :
  (∀ n, n ∈ columns ∨ n ∈ Dataset.retained →
        ∃ c, lookup_column n (Dataset.dataframe self) = Some c) →
  ∃ cs, sources set_order self columns cs.
Proof.
  intros Hall.
  assert (∃ cs, Forall2 (λ n c, lookup_column n (Dataset.dataframe self)
                                = Some c)
                  (set_order columns (Dataset.columns2 columns)) cs)
    as [cs HF].
  { assert (∀ n, n ∈ set_order columns (Dataset.columns2 columns) →
                 ∃ c, lookup_column n (Dataset.dataframe self) = Some c)
      as Hord by (intros n Hn; by apply Hall, elem_of_order).
    clear Hall.
    induction (set_order columns (Dataset.columns2 columns)) as [|n ns IH].
    - exists []. constructor.
    - destruct IH as [cs Hcs]; [intros; apply Hord; by right|].
      destruct (Hord n) as [c Hc]; [by left|].
      exists (c :: cs). by constructor. }
  exists cs. split; [by apply select_names_Ok|].
  clear Hall. induction HF as [|n c ns cs Hl _ IH]; constructor; [|done].
  by eapply lookup_column_self.
Qed.

Lemma select_columns_Ok self columns cs :
  sources set_order self columns cs →
  Dataset.select_columns set_order self columns
  = Ok (Dataset.mk (Dataset.name self)
          (mk_frame (df_count (Dataset.dataframe self)) (compatible <$> cs))).
Proof.
  intros Hs. pose proof Hs as [Hsel Hall].
  unfold Dataset.select_columns. rewrite Hsel.
  unfold mbind at 1, result_bind at 1.
  rewrite columns3_Ok. unfold mbind at 1, result_bind at 1. unfold select.
  rewrite traverse_fmap, (traverse_Ok_fmap _ compatible).
  - simpl. unfold mbind, result_bind. apply init_tagged.
    unfold spark.columns. simpl. rewrite compatible_fmap_names.
    destruct (sources_has self columns cs "dataset" Hs)
      as (c & _ & Hc & Hname); [right; by left|done|].
    apply list_elem_of_fmap. by exists c.
  - intros c Hc. apply eval_compatble_column.
    by apply (proj1 (Forall_forall _ _) Hall).
Qed.

Lemma select_columns_inv self columns new :
  Dataset.select_columns set_order self columns = Ok new →
  ∃ cs, sources set_order self columns cs ∧
        new = Dataset.mk (Dataset.name self)
                (mk_frame (df_count (Dataset.dataframe self)) (compatible <$> cs)).
Proof.
  intros Hok.
  destruct (select_names (Dataset.dataframe self)
              (set_order columns (Dataset.columns2 columns)))
    as [[k cs]|e] eqn:Hsel;
    [|by unfold Dataset.select_columns in Hok; rewrite Hsel in Hok].
  pose proof (select_names_count _ _ _ Hsel) as Hk. simpl in Hk. subst k.
  assert (sources set_order self columns cs) as Hs.
  { split; [done|]. apply Forall_forall. intros c Hc.
    unfold Dataset.select_columns in Hok. rewrite Hsel in Hok.
    unfold mbind at 1, result_bind at 1 in Hok.
    rewrite columns3_Ok in Hok. unfold mbind at 1, result_bind at 1 in Hok.
    unfold select in Hok.
    destruct (traverse _ _) as [cs3|] eqn:Ht in Hok; [|done].
    apply traverse_Ok_Forall2, Forall2_fmap_l in Ht.
    destruct (Forall2_elem_of_l _ _ _ _ Ht Hc) as (c3 & _ & Hev).
    apply eval_compatble_column_inv in Hev as [c' Hl].
    destruct (select_names_members _ _ _ c Hsel Hc) as [Hin|(n & _ & Hn)].
    - by rewrite Hl, (lookup_column_member _ _ _ Hin Hl).
    - by eapply lookup_column_self. }
  exists cs. split; [done|].
  rewrite (select_columns_Ok _ _ _ Hs) in Hok. by injection Hok.
Qed.

Lemma select_columns_has self columns new n :
  Dataset.select_columns set_order self columns = Ok new →
  n ∈ columns ∨ n ∈ Dataset.retained → n ≠ "*" →
  n ∈ Dataset.columns new.
Proof.
  intros (cs & Hs & ->)%select_columns_inv Hn Hne.
  destruct (sources_has self columns cs n Hs Hn Hne) as (c & _ & Hc & Hname).
  unfold Dataset.columns, spark.columns. simpl.
  rewrite compatible_fmap_names. apply list_elem_of_fmap. by exists c.
Qed.

Lemma select_columns_names self columns new :
  identifiers columns →
  Dataset.select_columns set_order self columns = Ok new →
  Dataset.columns new = set_order columns (Dataset.columns2 columns).
Proof.
  intros Hids (cs & Hs & ->)%select_columns_inv.
  unfold Dataset.columns, spark.columns. simpl.
  by rewrite compatible_fmap_names, (sources_names _ _ _ Hids Hs).
Qed.

(** A request of identifiers one of which denotes no column: the engine
    raises at the first such name, and so does the projection. *)
Lemma select_columns_Raise self columns n :
  identifiers columns →
  n ∈ columns ∨ n ∈ Dataset.retained →
  lookup_column n (Dataset.dataframe self) = None →
  ∃ m, (m ∈ columns ∨ m ∈ Dataset.retained) ∧
       lookup_column m (Dataset.dataframe self) = None ∧
       select_names (Dataset.dataframe self)
         (set_order columns (Dataset.columns2 columns))
       = Raise (AnalysisException m) ∧
       Dataset.select_columns set_order self columns
       = Raise (AnalysisException m).
Proof.
  intros Hids Hn Hl.
  destruct (select_names_Raise (Dataset.dataframe self)
              (set_order columns (Dataset.columns2 columns)) n)
    as (m & Hm & Hlm & Hr);
    [by apply identifiers_order|by apply elem_of_order|done|].
  exists m. split; [by apply elem_of_order|]. split; [done|]. split; [done|].
  unfold Dataset.select_columns. by rewrite Hr.
Qed.

(** The projection of a projection: what the effective names denoted in
    the table they denote, made compatible, in the result. *)
Lemma sources_projected self cols1 cs1 cols2 cs2 :
  sources set_order self cols1 cs1 →
  (∀ n, n ∈ cols2 → n ∈ cols1 ∨ n ∈ Dataset.retained) →
  identifiers cols2 →
  sources set_order self cols2 cs2 →
  sources set_order
    (Dataset.mk (Dataset.name self)
       (mk_frame (df_count (Dataset.dataframe self)) (compatible <$> cs1)))
    cols2 (compatible <$> cs2).
Proof.
  intros Hs1 Hsub Hids Hs2.
  apply (sources_identifiers _ _ _ Hids) in Hs2.
  apply sources_identifiers; [done|]. simpl.
  assert (∀ n, n ∈ set_order cols2 (Dataset.columns2 cols2) →
               n ∈ cols1 ∨ n ∈ Dataset.retained) as Hord.
  { intros n [Hn|Hn]%elem_of_order; [by apply Hsub|by right]. }
  pose proof (identifiers_order _ Hids) as Hido.
  induction Hs2 as [|n c ns cs2 Hl _ IH]; [constructor|].
  apply Forall_cons in Hido as [Hid Hido].
  rewrite fmap_cons. constructor.
  - apply (projected_lookup (Dataset.dataframe self)); [by destruct Hs1|done|].
    destruct (sources_has self cols1 cs1 n Hs1) as (c' & _ & Hc' & Hname);
      [apply Hord; by left|by apply identifier_not_star|].
    exists c'. split; [done|]. by rewrite Hname.
  - apply IH; [|done]. intros m Hm. apply Hord. by right.
Qed.

(** C5: whenever [select_columns] returns, the columns of the result
    include "dataset", "run", "luminosityBlock" and "event", whether or not
    they were requested; on a table whose names are identifiers, distinct
    when letter case is ignored, it returns as soon as the table has every
    requested column and the four; and every Dataset that is constructed
    has a "dataset" column. *)
Theorem select_columns_retains_identifying (self : Dataset.t)
    (columns : list string) :
  (∀ new, Dataset.select_columns set_order self columns = Ok new →
          "dataset" ∈ Dataset.columns new ∧ "run" ∈ Dataset.columns new ∧
          "luminosityBlock" ∈ Dataset.columns new ∧
          "event" ∈ Dataset.columns new) ∧
  (well_named (Dataset.columns self) →
   (∀ n, n ∈ columns ∨ n ∈ ["dataset"; "run"; "luminosityBlock"; "event"] →
         n ∈ Dataset.columns self) →
   ∃ new, Dataset.select_columns set_order self columns = Ok new) ∧
  (∀ name df, ∃ ds, Dataset.__init__ name df = Ok ds ∧
                    "dataset" ∈ Dataset.columns ds).
Proof.
  split; [|split].
  - intros new Hok.
    repeat split; apply (select_columns_has self columns new _ Hok);
      try done; right; apply (bool_decide_unpack _); by vm_compute.
  - intros [Hids Hnd] Hall.
    destruct (sources_exist self columns) as [cs Hs].
    { intros n Hn.
      destruct (lookup_column_is_Some n (Dataset.dataframe self))
        as (c & Hc & _); [|done|by apply Hall|by exists c].
      apply (proj1 (Forall_forall _ _) Hids). by apply Hall. }
    eexists. by apply select_columns_Ok.
  - apply init_has_dataset.
Qed.

(** C6, for requests of identifiers: projecting the result of a
    projection again, with the same request, returns that result
    unchanged: its boolean arrays are integer arrays already, which the
    cast table leaves alone. *)
Theorem select_columns_twice (self new : Dataset.t) (columns : list string) :
  identifiers columns →
  Dataset.select_columns set_order self columns = Ok new →
  Dataset.select_columns set_order new columns = Ok new.
Proof.
  intros Hids (cs & Hs & ->)%select_columns_inv.
  rewrite (select_columns_Ok _ _ (compatible <$> cs)).
  - simpl. rewrite <- list_fmap_compose.
    by rewrite (list_fmap_ext (compatible ∘ compatible) compatible cs)
      by (intros; apply compatible_idemp).
  - apply (sources_projected self columns cs columns cs); [done| |done..].
    intros n Hn. by left.
Qed.

(** C7, for requests of identifiers: [select_columns] builds a new
    Dataset object and leaves every object that existed, [self] included,
    as it was.  The new object has the name of [self]; its table has the
    rows of the table of [self] and exactly the requested and the four
    identifying columns, each once; each of them is the column that its
    name denotes in the table of [self], with boolean arrays widened to
    integer arrays. *)
Theorem select_columns_at_frame (h h' : gmap positive Dataset.t)
    (self l : positive) (columns : list string) :
  identifiers columns →
  Dataset.select_columns_at set_order h self columns = Ok (l, h') →
  ∃ obj new,
    h !! self = Some obj ∧ h' !! self = Some obj ∧
    h !! l = None ∧ h' !! l = Some new ∧
    (∀ a, a ≠ l → h' !! a = h !! a) ∧
    Dataset.name new = Dataset.name obj ∧
    df_count (Dataset.dataframe new) = df_count (Dataset.dataframe obj) ∧
    NoDup (Dataset.columns new) ∧
    (∀ n, n ∈ Dataset.columns new ↔ n ∈ columns ∨ n ∈ Dataset.retained) ∧
    (∀ n, n ∈ Dataset.columns new →
          ∃ c, lookup_column n (Dataset.dataframe obj) = Some c ∧
               lookup_column n (Dataset.dataframe new) = Some (compatible c)).
Proof.
  unfold Dataset.select_columns_at. intros Hids Hcall.
  destruct (h !! self) as [obj|] eqn:Hself; [|done].
  destruct (Dataset.select_columns set_order obj columns) as [new|e] eqn:Hsel;
    [|done].
  simpl in Hcall. injection Hcall as <- <-.
  assert (h !! fresh (dom h) = None) as Hfresh.
  { apply not_elem_of_dom, is_fresh. }
  pose proof (select_columns_names _ _ _ Hids Hsel) as Hnames.
  apply select_columns_inv in Hsel as (cs & Hs & ->).
  eexists obj, _. split; [done|]. split.
  { rewrite lookup_insert_ne; [done|congruence]. }
  split; [done|]. split; [by rewrite lookup_insert_eq|].
  split; [intros a Ha; by rewrite lookup_insert_ne|].
  split; [done|]. split; [done|]. rewrite Hnames.
  split; [apply NoDup_set_order|]. split; [apply elem_of_order|].
  intros n Hn. apply elem_of_order in Hn.
  destruct (sources_has obj columns cs n Hs Hn) as (c & Hl & Hc & Hname).
  { apply identifier_not_star.
    apply (proj1 (Forall_forall _ _) (identifiers_order _ Hids)).
    by apply elem_of_order. }
  exists c. split; [done|]. simpl.
  apply (projected_lookup (Dataset.dataframe obj)); [by destruct Hs|done|].
  exists c. split; [done|]. by rewrite Hname.
Qed.

(** C8, for names that no column answers to: on a table whose names are
    identifiers, distinct when letter case is ignored, a request of
    identifiers one of which equals no column of the table, not even when
    letter case is ignored, makes [select_columns] raise the engine's
    exception for a column that cannot be resolved, exactly as the
    engine's own [select] of the effective names raised it; no Dataset is
    returned. *)
Theorem select_columns_unknown_column (self : Dataset.t)
    (columns : list string) (c : string) :
  well_named (Dataset.columns self) → identifiers columns →
  c ∈ columns → lower c ∉ lower <$> Dataset.columns self →
  ∃ n, (n ∈ columns ∨ n ∈ Dataset.retained) ∧
       (lower n ∉ lower <$> Dataset.columns self) ∧
       select_names (Dataset.dataframe self)
         (set_order columns (Dataset.columns2 columns))
       = Raise (AnalysisException n) ∧
       Dataset.select_columns set_order self columns
       = Raise (AnalysisException n).
Proof.
  intros [Hself Hnd] Hids Hc Hno.
  destruct (select_columns_Raise self columns c Hids)
    as (n & Hn & Hl & Hsel & Hraise);
    [by left|by apply lookup_column_absent|].
  exists n. split; [done|]. split; [|done].
  intros (m & Hlm & Hm)%list_elem_of_fmap.
  apply list_elem_of_fmap in Hm as (c0 & -> & Hc0).
  rewrite (lookup_column_distinct n (Dataset.dataframe self) c0) in Hl;
    [done| |done..|by symmetry].
  apply (proj1 (Forall_forall _ _) (identifiers_order _ Hids)).
  by apply elem_of_order.
Qed.

End select_columns_facts.


(** ** App *)

Section app_facts.
Context {W : Type}.

Lemma provisions_app (tr evs : list App.event) :
  App.provisions (tr ++ evs) = App.provisions tr + App.provisions evs.
Proof. unfold App.provisions. by rewrite filter_app, length_app. Qed.

Lemma provisions_cons (e : App.event) (tr : list App.event) :
  App.provisions (e :: tr)
  = (if App.is_provision e then 1 else 0) + App.provisions tr.
Proof.
  by destruct e.
Qed.

Lemma provisions_nil : App.provisions [] = 0.
Proof. reflexivity. Qed.

(** Counts the [provision] calls of a trace that ends in known events. *)
Ltac count_provisions :=
  rewrite ?provisions_app, ?provisions_cons, ?provisions_nil; simpl; lia.

Lemma datasets_provisioned (self : App.t W) (w : W) (tr : list App.event) :
  App.provisioned (App.dataset_manager self) w = true →
  App.datasets self (w, tr) = (Ok (App.dataset_manager self), (w, tr)).
Proof. unfold App.datasets. simpl. by intros ->. Qed.

Lemma datasets_unprovisioned (self : App.t W) (w : W) (tr : list App.event) :
  App.provisioned (App.dataset_manager self) w = false →
  App.datasets self (w, tr)
  = (match (App.provision (App.dataset_manager self) w).1 with
     | Ok _ => Ok (App.dataset_manager self)
     | Raise e => Raise e
     end,
     ((App.provision (App.dataset_manager self) w).2, tr ++ [App.Provision])).
Proof.
  unfold App.datasets, App.bind, App.invoke, App.ret. simpl. intros ->. simpl.
  by destruct (App.provision _ w) as [[u|e] w'].
Qed.

(** Once [provision] has set the flag, a later access to [datasets] does
    not call it again. *)
Lemma datasets_again (self : App.t W) (w w' : W) (tr tr' : list App.event) dm :
  (∀ w0, (App.provision (App.dataset_manager self) w0).1 = Ok tt →
         App.provisioned (App.dataset_manager self)
           (App.provision (App.dataset_manager self) w0).2 = true) →
  App.datasets self (w, tr) = (Ok dm, (w', tr')) →
  App.datasets self (w', tr') = (Ok dm, (w', tr')).
Proof.
  intros Hsets Hfirst.
  destruct (App.provisioned (App.dataset_manager self) w) eqn:Hp.
  - rewrite datasets_provisioned in Hfirst by done.
    injection Hfirst as <- <- <-. by apply datasets_provisioned.
  - rewrite datasets_unprovisioned in Hfirst by done.
    specialize (Hsets w).
    destruct (App.provision (App.dataset_manager self) w) as [[[]|e] w0];
      simpl in *; [|done].
    injection Hfirst as <- <- <-. by apply datasets_provisioned, Hsets.
Qed.

(** [read_dataset], call by call. *)
Lemma read_dataset_unfold (self : App.t W) (n : string)
    (σ : W * list App.event) :
  App.read_dataset self n σ =
  match App.datasets self σ with
  | (Ok dm, (w0, tr0)) =>
      match App.get_file_list dm n w0 with
      | (Ok fs, w1) =>
          ((App.read_files (App.executor self) n fs w1).1,
           ((App.read_files (App.executor self) n fs w1).2,
            tr0 ++ [App.GetFileList n; App.Print fs; App.ReadFiles n fs]))
      | (Raise e, w1) => (Raise e, (w1, tr0 ++ [App.GetFileList n]))
      end
  | (Raise e, σ') => (Raise e, σ')
  end.
Proof.
  unfold App.read_dataset, App.bind.
  destruct (App.datasets self σ) as [[dm|e] [w0 tr0]]; [|done].
  unfold App.invoke, App.print, App.ret. simpl.
  destruct (App.get_file_list dm n w0) as [[fs|e] w1]; [|done]. simpl.
  destruct (App.read_files (App.executor self) n fs w1) as [[d|e] w2]; simpl;
    by rewrite <- !app_assoc.
Qed.

(** C10: [read_dataset] asks the dataset manager for the files of the
    dataset and returns what the executor's [read_files] returns for that
    name and those files.  On the way, [provision] is called once if the
    manager's flag is false when [datasets] is accessed, and not at all if
    it is true. *)
Theorem read_dataset_reads_listed_files (self : App.t W) (dataset_name : string)
    (w : W) (tr : list App.event) :
  let dm := App.dataset_manager self in
  ∃ w0 evs,
    ((App.provisioned dm w = true ∧ w0 = w ∧ evs = []) ∨
     (App.provisioned dm w = false ∧ w0 = (App.provision dm w).2 ∧
      evs = [App.Provision])) ∧
    App.provisions ((App.read_dataset self dataset_name (w, tr)).2.2)
    = App.provisions tr + (if App.provisioned dm w then 0 else 1) ∧
    ∀ files w1,
      (App.provisioned dm w = false → (App.provision dm w).1 = Ok tt) →
      App.get_file_list dm dataset_name w0 = (Ok files, w1) →
      App.read_dataset self dataset_name (w, tr)
      = ((App.read_files (App.executor self) dataset_name files w1).1,
         ((App.read_files (App.executor self) dataset_name files w1).2,
          tr ++ evs ++ [App.GetFileList dataset_name; App.Print files;
                        App.ReadFiles dataset_name files])).
Proof.
  intros dm. subst dm. rewrite !read_dataset_unfold.
  destruct (App.provisioned (App.dataset_manager self) w) eqn:Hp.
  - exists w, []. split; [by left|].
    rewrite datasets_provisioned by done.
    destruct (App.get_file_list (App.dataset_manager self) dataset_name w)
      as [[fs|e] w1]; simpl.
    + split; [count_provisions|]. by intros ? ? _ [= <- <-].
    + split; [count_provisions|]. by intros ? ? _ [=].
  - exists (App.provision (App.dataset_manager self) w).2, [App.Provision].
    split; [by right|].
    rewrite datasets_unprovisioned by done.
    destruct (App.provision (App.dataset_manager self) w) as [[[]|e0] w0];
      simpl.
    + destruct (App.get_file_list (App.dataset_manager self) dataset_name w0)
        as [[fs|e] w1]; simpl.
      * split; [count_provisions|].
        intros ? ? _ [= <- <-]. by rewrite <- app_assoc.
      * split; [count_provisions|]. by intros ? ? _ [=].
    + split; [count_provisions|].
      intros files w1' Hok. by specialize (Hok eq_refl).
Qed.

End app_facts.

(** ** The properties at the sample data *)

Lemma Dataset_init_dataset_column_witness :
  Dataset.__init__ "DY Jets" demo_tagged_frame
  = Ok (Dataset.mk "DY Jets" demo_tagged_frame) ∧
  ∃ self tag,
    Dataset.__init__ "DY Jets" demo_frame = Ok self ∧
    spark.df_columns (Dataset.dataframe self)
    = spark.df_columns demo_frame ++ [tag] ∧
    spark.col_data tag !! 1 = Some (spark.Str "DY Jets").
Proof.
  split.
  - apply (proj1 (Dataset_init_dataset_column "DY Jets" demo_tagged_frame)).
    apply (bool_decide_unpack _). by vm_compute.
  - destruct (proj2 (Dataset_init_dataset_column "DY Jets" demo_frame))
      as (self & tag & Hinit & _ & _ & _ & _ & _ & Hrows & _ & _ & Hcols).
    { apply (bool_decide_unpack _). by vm_compute. }
    exists self, tag. split; [done|]. split.
    + apply Hcols.
      * unfold identifiers. apply (bool_decide_unpack _). by vm_compute.
      * apply (proj1 (Forall_forall (λ n, spark.lower n ≠ "dataset")
                        (spark.columns demo_frame))).
        apply (bool_decide_unpack _). by vm_compute.
    + apply Hrows. simpl. lia.
Defined.


Lemma elements_order_perm (l : list string) (X : gset string) :
  elements_order l X ≡ₚ elements X.
Proof. done. Defined.

Lemma well_named_demo : well_named (Dataset.columns demo_dataset).
Proof.
  unfold well_named, identifiers. apply (bool_decide_unpack _). by vm_compute.
Defined.

Lemma select_columns_retains_identifying_witness :
  ∃ new, Dataset.select_columns elements_order demo_dataset ["Electron_pt"]
         = Ok new ∧
         "dataset" ∈ Dataset.columns new ∧ "run" ∈ Dataset.columns new ∧
         "luminosityBlock" ∈ Dataset.columns new ∧
         "event" ∈ Dataset.columns new.
Proof.
  destruct (select_columns_retains_identifying elements_order
              elements_order_perm demo_dataset ["Electron_pt"])
    as (Hret & Htot & _).
  destruct (Htot well_named_demo) as [new Hnew].
  { intros n Hn. apply (bool_decide_unpack _).
    destruct Hn as [Hn|Hn]; set_unfold; destruct_or?; subst; by vm_compute. }
  exists new. split; [done|]. by apply Hret.
Defined.

(** The counterexample to C6 as it is stated, the wildcard: the request ["*"] is
    answered with all columns of the table and the four identifying
    columns once more, and the same request to that result with still
    more columns. *)
Lemma select_columns_twice_counterexample :
  ∃ new, Dataset.select_columns elements_order demo_dataset ["*"] = Ok new ∧
         Dataset.select_columns elements_order new ["*"] ≠ Ok new.
Proof.
  eexists. split; [by vm_compute|]. by vm_compute.
Qed.

Lemma select_columns_twice_witness :
  ∃ new, Dataset.select_columns elements_order demo_dataset ["Muon_tightId"]
         = Ok new ∧
         Dataset.select_columns elements_order new ["Muon_tightId"] = Ok new.
Proof.
  eexists. split; [by vm_compute|].
  apply (select_columns_twice elements_order elements_order_perm demo_dataset).
  - by repeat constructor.
  - by vm_compute.
Defined.

(** The counterexample to C7 as it is stated, the wildcard: the table returned for
    the request ["*"] has a column that is neither requested by name nor
    one of the four, and has columns twice. *)
Lemma select_columns_at_frame_counterexample :
  ∃ new, Dataset.select_columns elements_order demo_dataset ["*"] = Ok new ∧
         "Electron_pt" ∈ Dataset.columns new ∧
         ¬ ("Electron_pt" ∈ ["*"] ∨ "Electron_pt" ∈ Dataset.retained) ∧
         ¬ NoDup (Dataset.columns new).
Proof.
  eexists. split; [by vm_compute|].
  split; [apply (bool_decide_unpack _); by vm_compute|].
  split; apply (bool_decide_unpack _); by vm_compute.
Qed.

Lemma select_columns_at_frame_witness :
  let h : gmap positive Dataset.t := {[ 1%positive := demo_dataset ]} in
  ∃ l h', Dataset.select_columns_at elements_order h 1%positive ["Muon_tightId"]
          = Ok (l, h') ∧
          h' !! 1%positive = h !! 1%positive ∧
          h !! l = None ∧
          ∃ obj new, h !! 1%positive = Some obj ∧ h' !! l = Some new ∧
                     Dataset.name new = Dataset.name obj.
Proof.
  intros h.
  assert (∃ l h', Dataset.select_columns_at elements_order h 1%positive
                    ["Muon_tightId"] = Ok (l, h')) as (l & h' & Hcall).
  { eexists _, _. by vm_compute. }
  exists l, h'. split; [done|].
  assert (identifiers ["Muon_tightId"]) as Hids by (by repeat constructor).
  destruct (select_columns_at_frame elements_order elements_order_perm
              _ _ _ _ _ Hids Hcall)
    as (obj & new & Hself & Hself' & Hfresh & Hnew & _ & Hname & _).
  split; [congruence|]. split; [exact Hfresh|].
  exists obj, new. exact (conj Hself (conj Hnew Hname)).
Defined.

(** The counterexample to C8 as it is stated, a name that differs from
    a column in letter case only: "electron_pt" is not among the columns of the sample
    table, and the request is answered from the column "Electron_pt". *)
Lemma select_columns_unknown_column_counterexample :
  "electron_pt" ∈ ["electron_pt"] ∧
  ("electron_pt" ∉ Dataset.columns demo_dataset) ∧
  ∃ new, Dataset.select_columns elements_order demo_dataset ["electron_pt"]
         = Ok new.
Proof.
  split; [by left|]. split; [apply (bool_decide_unpack _); by vm_compute|].
  eexists. by vm_compute.
Qed.

Lemma select_columns_unknown_column_witness :
  ∃ n, (n ∈ ["Tau_pt"] ∨ n ∈ Dataset.retained) ∧
       (spark.lower n ∉ spark.lower <$> Dataset.columns demo_dataset) ∧
       spark.select_names (Dataset.dataframe demo_dataset)
         (elements_order ["Tau_pt"] (Dataset.columns2 ["Tau_pt"]))
       = Raise (AnalysisException n) ∧
       Dataset.select_columns elements_order demo_dataset ["Tau_pt"]
       = Raise (AnalysisException n).
Proof.
  apply (select_columns_unknown_column elements_order elements_order_perm
           demo_dataset ["Tau_pt"] "Tau_pt").
  - exact well_named_demo.
  - by repeat constructor.
  - by left.
  - apply (bool_decide_unpack _). by vm_compute.
Defined.

Lemma read_dataset_reads_listed_files_witness :
  App.read_dataset demo_app "DY Jets" (false, [])
  = (Dataset.__init__ "DY Jets" demo_frame,
     (true, [App.Provision; App.GetFileList "DY Jets";
             App.Print ["f1.root"; "f2.root"];
             App.ReadFiles "DY Jets" ["f1.root"; "f2.root"]])).
Proof.
  destruct (read_dataset_reads_listed_files demo_app "DY Jets" false [])
    as (w0 & evs & [(Hp & _)|(_ & -> & ->)] & _ & Hread); [done|].
  by rewrite (Hread ["f1.root"; "f2.root"] true).
Defined.

(** ** More on projections *)

Lemma concat_Permutation {A} (ls ks : list (list A)) :
  ls ≡ₚ ks → concat ls ≡ₚ concat ks.
Proof.
  intros Hp. induction Hp as [|x ls ks _ IH|x y ls|ls ks ms _ IH1 _ IH2]; simpl.
  - done.
  - by rewrite IH.
  - rewrite !(assoc_L (++)). by rewrite (Permutation_app_comm y x).
  - by rewrite IH1.
Qed.

Section projection_facts.
Import spark.
Variable set_order : list string → gset string → list string.
Hypothesis set_order_perm : ∀ l X, set_order l X ≡ₚ elements X.

(** The sources of two requests with the same effective names are the
    same columns, in the two orders of enumeration. *)
Lemma sources_same_set self cols1 cols2 cs1 :
  Dataset.columns2 cols1 = Dataset.columns2 cols2 →
  sources set_order self cols1 cs1 →
  ∃ cs2, sources set_order self cols2 cs2 ∧ cs1 ≡ₚ cs2.
Proof.
  intros Heq [Hsel Hall]. rewrite select_names_unfold in Hsel.
  destruct (traverse _ _) as [css1|] eqn:Ht in Hsel; [|done].
  injection Hsel as <-. apply traverse_Ok_Forall2 in Ht.
  assert (set_order cols1 (Dataset.columns2 cols1)
          ≡ₚ set_order cols2 (Dataset.columns2 cols2)) as Hp.
  { by rewrite !set_order_perm, Heq. }
  destruct (Permutation_Forall2 Hp Ht) as (css2 & Hcss & Ht2).
  apply traverse_Ok_Forall2 in Ht2.
  pose proof (concat_Permutation _ _ Hcss) as Hcs.
  exists (concat css2). split; [|done]. split.
  - rewrite select_names_unfold. by rewrite Ht2.
  - apply Forall_forall. intros c Hc. rewrite <- Hcs in Hc.
    by apply (proj1 (Forall_forall _ _) Hall).
Qed.

Lemma select_columns_same_set self cols1 cols2 :
  Dataset.columns2 cols1 = Dataset.columns2 cols2 →
  same_up_to_order (Dataset.select_columns set_order self cols1)
                   (Dataset.select_columns set_order self cols2).
Proof.
  intros Heq. unfold same_up_to_order.
  destruct (Dataset.select_columns set_order self cols1) as [d1|e1] eqn:H1.
  - apply (select_columns_inv set_order set_order_perm) in H1
      as (cs1 & Hs1 & ->).
    destruct (sources_same_set self cols1 cols2 cs1 Heq Hs1) as (cs2 & Hs2 & Hp).
    rewrite (select_columns_Ok set_order set_order_perm _ _ _ Hs2). simpl.
    split; [done|]. split; [done|]. by rewrite Hp.
  - destruct (Dataset.select_columns set_order self cols2) as [d2|e2] eqn:H2;
      [|done].
    apply (select_columns_inv set_order set_order_perm) in H2
      as (cs2 & Hs2 & ->).
    destruct (sources_same_set self cols2 cols1 cs2 (eq_sym Heq) Hs2)
      as (cs1 & Hs1 & _).
    rewrite (select_columns_Ok set_order set_order_perm _ _ _ Hs1) in H1.
    done.
Qed.

(** X1: The request is read as a set: two requests with the same names, in
    any order and with any repetitions, are answered alike when the order
    of the columns is left aside: both raise, or both return a Dataset of
    the same name with the same rows and, in some order, the same
    columns. *)
Theorem select_columns_same_names (self : Dataset.t) (cols1 cols2 : list string) :
  (∀ n, n ∈ cols1 ↔ n ∈ cols2) →
  same_up_to_order (Dataset.select_columns set_order self cols1)
                   (Dataset.select_columns set_order self cols2).
Proof.
  intros Hsame. apply select_columns_same_set.
  apply set_eq. intros n. rewrite !elem_of_columns2. by rewrite Hsame.
Qed.

(** X2: Naming an identifying column in the request changes nothing but,
    possibly, the order of the columns. *)
Theorem select_columns_retained_implicit (self : Dataset.t)
    (columns : list string) (n : string) :
  n ∈ ["dataset"; "run"; "luminosityBlock"; "event"] →
  same_up_to_order (Dataset.select_columns set_order self (n :: columns))
                   (Dataset.select_columns set_order self columns).
Proof.
  intros Hn. apply select_columns_same_set.
  apply set_eq. intros m. rewrite !elem_of_columns2, elem_of_cons.
  split; [|tauto]. intros [[->|Hm]|Hm]; tauto.
Qed.

(** X3: No column of a projection has the type "array<boolean>". *)
Theorem select_columns_no_boolean_array (self new : Dataset.t)
    (columns : list string) (n ty : string) :
  Dataset.select_columns set_order self columns = Ok new →
  (n, ty) ∈ Dataset.columns_with_types new →
  ty ≠ "array<boolean>".
Proof.
  intros Hok Hin.
  apply (select_columns_inv set_order set_order_perm) in Hok as (cs & Hs & ->).
  unfold Dataset.columns_with_types, dtypes in Hin. simpl in Hin.
  apply list_elem_of_fmap in Hin as (c' & [= -> ->] & Hc').
  apply list_elem_of_fmap in Hc' as (c & -> & _). apply compatible_type.
Qed.

(** X4: Neither tagging nor projecting changes the number of rows. *)
Theorem count_preserved (self : Dataset.t) :
  (∀ name df, Dataset.__init__ name df = Ok self →
              Dataset.count self = spark.count df) ∧
  (∀ columns new, Dataset.select_columns set_order self columns = Ok new →
                  Dataset.count new = Dataset.count self).
Proof.
  split.
  - intros name df. destruct (decide ("dataset" ∈ spark.columns df)) as [Hin|Hno].
    + rewrite init_tagged by done. by intros [= <-].
    + rewrite init_untagged by done. by intros [= <-].
  - intros columns new Hok.
    by apply (select_columns_inv set_order set_order_perm) in Hok
      as (cs & Hs & ->).
Qed.

(** X5: For requests of identifiers, projecting a projection onto names
    it was asked for is projecting the original onto them. *)
Theorem select_columns_narrow (self mid : Dataset.t) (cols1 cols2 : list string) :
  identifiers cols1 → identifiers cols2 →
  Dataset.select_columns set_order self cols1 = Ok mid →
  (∀ n, n ∈ cols2 →
        n ∈ cols1 ∨ n ∈ ["dataset"; "run"; "luminosityBlock"; "event"]) →
  ∃ new, Dataset.select_columns set_order self cols2 = Ok new ∧
         Dataset.select_columns set_order mid cols2 = Ok new.
Proof.
  intros _ Hids Hok Hsub.
  apply (select_columns_inv set_order set_order_perm) in Hok as (cs1 & Hs1 & ->).
  destruct (sources_exist set_order set_order_perm self cols2) as [cs2 Hs2].
  { intros n Hn.
    destruct (sources_has set_order set_order_perm self cols1 cs1 n Hs1)
      as (c & Hl & _); [| |by exists c].
    - destruct Hn as [Hn|Hn]; [by apply Hsub|by right].
    - apply identifier_not_star.
      apply (proj1 (Forall_forall _ _)
               (identifiers_order set_order set_order_perm _ Hids)).
      by apply (elem_of_order set_order set_order_perm). }
  eexists. split; [by apply select_columns_Ok|].
  rewrite (select_columns_Ok set_order set_order_perm _ _ (compatible <$> cs2)).
  - simpl. do 3 f_equal. rewrite <- list_fmap_compose.
    apply list_fmap_ext. intros _ c _. apply compatible_idemp.
  - by apply (sources_projected set_order set_order_perm self cols1 cs1).
Qed.

(** X6: A column a projection left out cannot be selected from its result,
    although the original table may have it: when the requests are made of
    identifiers and the name equals none of the names the projection
    kept, not even when letter case is ignored, the engine raises. *)
Theorem select_columns_dropped_column (self mid : Dataset.t)
    (cols1 cols2 : list string) (c : string) :
  identifiers cols1 → identifiers cols2 →
  Dataset.select_columns set_order self cols1 = Ok mid →
  c ∈ cols2 →
  lower c ∉ lower <$> (cols1 ++ ["dataset"; "run"; "luminosityBlock"; "event"]) →
  ∃ n, (n ∈ cols2 ∨ n ∈ ["dataset"; "run"; "luminosityBlock"; "event"]) ∧
       lookup_column n (Dataset.dataframe mid) = None ∧
       Dataset.select_columns set_order mid cols2 = Raise (AnalysisException n).
Proof.
  intros Hids1 Hids2 Hok Hc Hno.
  pose proof (select_columns_names set_order set_order_perm _ _ _ Hids1 Hok)
    as Hcols.
  destruct (select_columns_Raise set_order set_order_perm mid cols2 c Hids2)
    as (n & Hn & Hl & _ & Hraise); [by left| |by exists n].
  apply lookup_column_absent. fold (Dataset.columns mid). rewrite Hcols.
  intros (m & Hlm & Hm)%list_elem_of_fmap. apply Hno.
  apply list_elem_of_fmap. exists m. split; [done|].
  apply (elem_of_order set_order set_order_perm) in Hm.
  apply elem_of_app. tauto.
Qed.

(** X7: The empty request: the result has the four identifying columns and
    no other; and on a table whose names are identifiers, distinct when
    letter case is ignored, it is obtained exactly when each of the four
    names equals the name of a column when letter case is ignored. *)
Theorem select_columns_nothing_requested (self : Dataset.t) :
  (∀ new, Dataset.select_columns set_order self [] = Ok new →
          Dataset.columns new ≡ₚ ["dataset"; "run"; "luminosityBlock"; "event"]) ∧
  (well_named (Dataset.columns self) →
   ((∃ new, Dataset.select_columns set_order self [] = Ok new) ↔
    ∀ n, n ∈ ["dataset"; "run"; "luminosityBlock"; "event"] →
         lower n ∈ lower <$> Dataset.columns self)).
Proof.
  split.
  - intros new Hok.
    rewrite (select_columns_names set_order set_order_perm _ _ _
               (Forall_nil_2 _) Hok), set_order_perm.
    unfold Dataset.columns2. rewrite list_to_set_nil, (left_id_L ∅ (∪)).
    apply elements_list_to_set. apply (bool_decide_unpack _). by vm_compute.
  - intros [Hids Hnd]. split.
    + intros [new Hok] n Hn.
      apply (select_columns_inv set_order set_order_perm) in Hok
        as (cs & Hs & _).
      destruct (sources_has set_order set_order_perm self [] cs n Hs)
        as (c & Hl & _); [by right| |by eapply lookup_column_present].
      apply identifier_not_star.
      by apply (proj1 (Forall_forall _ _) identifiers_retained).
    + intros Hall. destruct (sources_exist set_order set_order_perm self []) as [cs Hs].
      { intros n [Hn|Hn]; [by apply elem_of_nil in Hn|].
        pose proof (Hall n Hn) as Hin. unfold Dataset.columns, columns in Hin.
        rewrite <- list_fmap_compose in Hin.
        apply list_elem_of_fmap in Hin as (c0 & Hl & Hc0). simpl in Hl.
        exists (rename n c0). apply lookup_column_distinct; [|done..].
        by apply (proj1 (Forall_forall _ _) identifiers_retained). }
      eexists. by apply (select_columns_Ok set_order set_order_perm).
Qed.

(** X8: A table of identifiers none of which equals one of the four
    names, not even when letter case is ignored, cannot be projected,
    whatever identifiers are requested. *)
Theorem select_columns_needs_identifying (self : Dataset.t)
    (columns : list string) (n : string) :
  identifiers (Dataset.columns self) → identifiers columns →
  n ∈ ["dataset"; "run"; "luminosityBlock"; "event"] →
  lower n ∉ lower <$> Dataset.columns self →
  ∃ m, lookup_column m (Dataset.dataframe self) = None ∧
       Dataset.select_columns set_order self columns
       = Raise (AnalysisException m).
Proof.
  intros _ Hids Hn Hno.
  destruct (select_columns_Raise set_order set_order_perm self columns n Hids)
    as (m & _ & Hl & _ & Hraise);
    [by right|by apply lookup_column_absent|by exists m].
Qed.

(** X9: The tag outlives the name.  A Dataset built from an untagged table
    carries its name in every row; wrapping its table again under another
    name keeps the table, and so the first name, as it is. *)
Theorem Dataset_init_rewrap (name name' : string) (df : DataFrame) :
  "dataset" ∉ spark.columns df →
  ∃ first,
    Dataset.__init__ name df = Ok first ∧
    Dataset.__init__ name' (Dataset.dataframe first)
    = Ok (Dataset.mk name' (Dataset.dataframe first)) ∧
    lookup_column "dataset" (Dataset.dataframe first)
    = Some (mk_column "dataset" "string" (replicate (df_count df) (Str name))).
Proof.
  intros Hno. destruct (init_has_dataset name df) as (first & Hinit & Hin).
  exists first. split; [done|]. split; [by apply init_tagged|].
  by apply (init_untagged_lookup name df).
Qed.

(** X10: Tagging, then projecting: whatever is requested, the result carries
    the name of the Dataset in every row of its "dataset" column. *)
Theorem select_columns_keeps_tag (name : string) (df : DataFrame)
    (self new : Dataset.t) (columns : list string) :
  "dataset" ∉ spark.columns df →
  Dataset.__init__ name df = Ok self →
  Dataset.select_columns set_order self columns = Ok new →
  Dataset.name new = name ∧
  lookup_column "dataset" (Dataset.dataframe new)
  = Some (mk_column "dataset" "string" (replicate (df_count df) (Str name))).
Proof.
  intros Hno Hinit Hok.
  destruct (init_untagged_columns name df self Hno Hinit)
    as (Hname & Hcount & _).
  pose proof (init_untagged_lookup name df self Hno Hinit) as Htag.
  apply (select_columns_inv set_order set_order_perm) in Hok as (cs & Hs & ->).
  split; [done|]. simpl.
  destruct (sources_has set_order set_order_perm self columns cs "dataset" Hs)
    as (c & Hl & Hc & Hc'); [right; by left|done|].
  change (mk_column "dataset" "string" (replicate (df_count df) (Str name)))
    with (compatible (tag_column name (df_count df))).
  apply (projected_lookup (Dataset.dataframe self)); [by destruct Hs|done|].
  exists c. split; [done|]. by rewrite Hc'.
Qed.

End projection_facts.

(** ** The further properties of projections at the sample data *)

Lemma select_columns_same_names_witness :
  same_up_to_order
    (Dataset.select_columns elements_order demo_dataset
       ["Muon_tightId"; "Electron_pt"; "Muon_tightId"])
    (Dataset.select_columns elements_order demo_dataset
       ["Electron_pt"; "Muon_tightId"]).
Proof.
  apply (select_columns_same_names elements_order elements_order_perm).
  intros n. rewrite !elem_of_cons, !elem_of_nil. tauto.
Defined.

Lemma select_columns_retained_implicit_witness :
  same_up_to_order
    (Dataset.select_columns elements_order demo_dataset ["run"; "Electron_pt"])
    (Dataset.select_columns elements_order demo_dataset ["Electron_pt"]).
Proof.
  apply (select_columns_retained_implicit elements_order elements_order_perm).
  apply (bool_decide_unpack _). by vm_compute.
Defined.

Lemma select_columns_no_boolean_array_witness :
  ∃ new, Dataset.select_columns elements_order demo_dataset ["Muon_tightId"]
         = Ok new ∧
         ("Muon_tightId", "array<int>") ∈ Dataset.columns_with_types new ∧
         "array<int>" ≠ "array<boolean>".
Proof.
  assert (∃ new, Dataset.select_columns elements_order demo_dataset
                   ["Muon_tightId"] = Ok new ∧
                 ("Muon_tightId", "array<int>") ∈ Dataset.columns_with_types new)
    as (new & Hok & Hin).
  { eexists. split; [by vm_compute|].
    apply (bool_decide_unpack _). by vm_compute. }
  exists new. split; [exact Hok|]. split; [exact Hin|].
  exact (select_columns_no_boolean_array elements_order elements_order_perm
           demo_dataset new ["Muon_tightId"] "Muon_tightId" "array<int>"
           Hok Hin).
Defined.

Lemma count_preserved_witness :
  ∃ self new,
    Dataset.__init__ "DY Jets" demo_frame = Ok self ∧
    Dataset.select_columns elements_order self ["Electron_pt"] = Ok new ∧
    Dataset.count self = spark.count demo_frame ∧
    Dataset.count new = Dataset.count self.
Proof.
  assert (∃ self new,
            Dataset.__init__ "DY Jets" demo_frame = Ok self ∧
            Dataset.select_columns elements_order self ["Electron_pt"] = Ok new)
    as (self & new & Hinit & Hok).
  { eexists _, _. split; by vm_compute. }
  exists self, new. split; [exact Hinit|]. split; [exact Hok|].
  destruct (count_preserved elements_order elements_order_perm self)
    as [Htag Hsel].
  split; [exact (Htag _ _ Hinit)|exact (Hsel _ _ Hok)].
Defined.

Lemma select_columns_narrow_witness :
  ∃ mid new,
    Dataset.select_columns elements_order demo_dataset
      ["Muon_tightId"; "Electron_pt"] = Ok mid ∧
    Dataset.select_columns elements_order demo_dataset ["Electron_pt"]
    = Ok new ∧
    Dataset.select_columns elements_order mid ["Electron_pt"] = Ok new.
Proof.
  assert (∃ mid, Dataset.select_columns elements_order demo_dataset
                   ["Muon_tightId"; "Electron_pt"] = Ok mid) as (mid & Hmid).
  { eexists. by vm_compute. }
  destruct (select_columns_narrow elements_order elements_order_perm
              demo_dataset mid ["Muon_tightId"; "Electron_pt"] ["Electron_pt"])
    as (new & Hnew & Hnarrow).
  { by repeat constructor. }
  { by repeat constructor. }
  { exact Hmid. }
  { intros n Hn. left. by right. }
  exists mid, new. exact (conj Hmid (conj Hnew Hnarrow)).
Defined.

Lemma select_columns_dropped_column_witness :
  ∃ mid n,
    Dataset.select_columns elements_order demo_dataset ["Electron_pt"]
    = Ok mid ∧
    spark.lookup_column n (Dataset.dataframe mid) = None ∧
    Dataset.select_columns elements_order mid ["Muon_tightId"]
    = Raise (AnalysisException n).
Proof.
  assert (∃ mid, Dataset.select_columns elements_order demo_dataset
                   ["Electron_pt"] = Ok mid) as (mid & Hmid).
  { eexists. by vm_compute. }
  destruct (select_columns_dropped_column elements_order elements_order_perm
              demo_dataset mid ["Electron_pt"] ["Muon_tightId"] "Muon_tightId")
    as (n & _ & Hn & Hraise).
  - by repeat constructor.
  - by repeat constructor.
  - exact Hmid.
  - by left.
  - apply (bool_decide_unpack _). by vm_compute.
  - exists mid, n. exact (conj Hmid (conj Hn Hraise)).
Defined.

Lemma select_columns_nothing_requested_witness :
  ∃ new, Dataset.select_columns elements_order demo_dataset [] = Ok new ∧
         Dataset.columns new ≡ₚ ["dataset"; "run"; "luminosityBlock"; "event"].
Proof.
  destruct (select_columns_nothing_requested elements_order
              elements_order_perm demo_dataset) as [Hcols Hex].
  destruct (proj2 (Hex well_named_demo)) as [new Hnew].
  { apply (proj1 (Forall_forall
                    (λ n, spark.lower n
                          ∈ spark.lower <$> Dataset.columns demo_dataset)
                    ["dataset"; "run"; "luminosityBlock"; "event"])).
    apply (bool_decide_unpack _). by vm_compute. }
  exists new. split; [exact Hnew|exact (Hcols new Hnew)].
Defined.

Lemma select_columns_needs_identifying_witness :
  ∃ m, spark.lookup_column m (frame_of_names ["Electron_pt"; "dataset"]) = None ∧
       Dataset.select_columns elements_order
         (Dataset.mk "DY Jets" (frame_of_names ["Electron_pt"; "dataset"]))
         ["Electron_pt"]
       = Raise (AnalysisException m).
Proof.
  apply (select_columns_needs_identifying elements_order elements_order_perm
           (Dataset.mk "DY Jets" (frame_of_names ["Electron_pt"; "dataset"]))
           ["Electron_pt"] "run").
  - unfold identifiers. apply (bool_decide_unpack _). by vm_compute.
  - by repeat constructor.
  - apply (bool_decide_unpack _). by vm_compute.
  - apply (bool_decide_unpack _). by vm_compute.
Defined.

Lemma Dataset_init_rewrap_witness :
  ∃ first,
    Dataset.__init__ "DY Jets" demo_frame = Ok first ∧
    Dataset.__init__ "TTbar" (Dataset.dataframe first)
    = Ok (Dataset.mk "TTbar" (Dataset.dataframe first)) ∧
    spark.lookup_column "dataset" (Dataset.dataframe first)
    = Some (spark.mk_column "dataset" "string"
              [spark.Str "DY Jets"; spark.Str "DY Jets"]).
Proof.
  apply (Dataset_init_rewrap "DY Jets" "TTbar" demo_frame).
  apply (bool_decide_unpack _). by vm_compute.
Defined.

Lemma select_columns_keeps_tag_witness :
  ∃ self new,
    Dataset.__init__ "DY Jets" demo_frame = Ok self ∧
    Dataset.select_columns elements_order self ["Electron_pt"] = Ok new ∧
    Dataset.name new = "DY Jets" ∧
    spark.lookup_column "dataset" (Dataset.dataframe new)
    = Some (spark.mk_column "dataset" "string"
              [spark.Str "DY Jets"; spark.Str "DY Jets"]).
Proof.
  assert (∃ self new,
            Dataset.__init__ "DY Jets" demo_frame = Ok self ∧
            Dataset.select_columns elements_order self ["Electron_pt"] = Ok new)
    as (self & new & Hinit & Hok).
  { eexists _, _. split; by vm_compute. }
  exists self, new. split; [exact Hinit|]. split; [exact Hok|].
  apply (select_columns_keeps_tag elements_order elements_order_perm "DY Jets"
           demo_frame self new ["Electron_pt"]); [|exact Hinit|exact Hok].
  apply (bool_decide_unpack _). by vm_compute.
Defined.

(** ** More on the selection by physics objects *)

Section physics_objects_facts.
Import re.

Lemma filter_ext_elem {A} (P Q : A → Prop) `{!∀ x, Decision (P x)}
    `{!∀ x, Decision (Q x)} (l : list A) :
  (∀ x, x ∈ l → (P x ↔ Q x)) → filter P l = filter Q l.
Proof.
  induction l as [|x l IH]; intros Hext; [done|].
  rewrite !filter_cons. rewrite IH by (intros y Hy; apply Hext; by right).
  destruct (decide (P x)) as [HP|HP], (decide (Q x)) as [HQ|HQ]; try done.
  - exfalso. apply HQ, Hext; [by left|done].
  - exfalso. apply HP, Hext; [by left|done].
Qed.

Lemma filter_all {A} (P : A → Prop) `{!∀ x, Decision (P x)} (l : list A) :
  (∀ x, x ∈ l → P x) → filter P l = l.
Proof.
  induction l as [|x l IH]; intros Hall; [done|].
  rewrite filter_cons_True by (apply Hall; by left).
  rewrite IH; [done|]. intros y Hy. apply Hall. by right.
Qed.

Lemma startswith_refl s : startswith s s = true.
Proof. apply startswith_true. exists []. by rewrite app_nil_r. Qed.

Lemma startswith_shorter s g suffix :
  startswith s (g +:+ suffix) = true → startswith s g = true.
Proof.
  rewrite !startswith_true, chars_app. intros [k Hk].
  exists (chars suffix ++ k). by rewrite Hk, <- app_assoc.
Qed.

(** X12: For plain group names the call never misses a column: whatever
    qualifies for a group, as count column or as property, is returned. *)
Theorem columns_for_physics_objects_complete (self : Dataset.t)
    (G : list string) (g c : string) :
  Forall plain G → plain g →
  c ∈ columns_for_groups (G ++ [g]) (Dataset.columns self) →
  ∃ cols, Dataset.columns_for_physics_objects self (G ++ [g]) = Ok cols ∧
          c ∈ cols.
Proof.
  intros HG Hg Hc. eexists. split; [by apply columns_for_physics_objects_plain|].
  unfold columns_for_groups in Hc.
  apply list_elem_of_filter in Hc as [Hq Hc]. apply list_elem_of_filter.
  split; [|done]. apply Is_true_true. apply Is_true_true in Hq.
  unfold qualifies in Hq. apply existsb_elem_of in Hq as (g' & Hg' & Hq).
  unfold selects. rewrite !orb_true_iff, !existsb_elem_of.
  apply orb_true_iff in Hq as [Hq|Hq].
  - apply bool_decide_eq_true in Hq as ->. right. exists g'.
    split; [done|]. apply startswith_refl.
  - apply elem_of_app in Hg' as [Hg'|Hg'].
    + left. left. exists g'. split; [done|]. by eapply startswith_shorter.
    + apply list_elem_of_singleton in Hg' as ->. left. by right.
Qed.

(** X13: For one plain group, the call returns exactly the group's columns
    provided the count name is not the beginning of another column. *)
Theorem columns_for_physics_objects_exact (self : Dataset.t) (g : string) :
  plain g →
  (∀ c, c ∈ Dataset.columns self →
        startswith c (Dataset.count_column_for_physics_object g) = true →
        c = Dataset.count_column_for_physics_object g) →
  Dataset.columns_for_physics_objects self [g]
  = Ok (columns_for_groups [g] (Dataset.columns self)).
Proof.
  intros Hg Honly.
  change [g] with ([] ++ [g]) at 1.
  rewrite (columns_for_physics_objects_plain self [] g) by done.
  f_equal. unfold columns_for_groups. apply filter_ext_elem.
  intros c Hc. unfold selects, qualifies. simpl.
  rewrite !orb_false_r. rewrite !Is_true_true, !orb_true_iff.
  rewrite bool_decide_eq_true. split.
  - intros [Hs|Hs]; [by right|left; by apply Honly].
  - intros [->|Hs]; [right; apply startswith_refl|by left].
Qed.

(** X14: With no group at all, every column is returned: the pattern then
    matches the empty beginning of any name. *)
Theorem columns_for_physics_objects_no_group (self : Dataset.t) :
  Dataset.columns_for_physics_objects self [] = Ok (Dataset.columns self).
Proof.
  unfold Dataset.columns_for_physics_objects.
  assert (∃ r, compile ("(" +:+ ("(" +:+ join ")|(" [] +:+ ")_.*") +:+ ")|(" +:+
                        ("(" +:+ join ")|(" ((λ c, "n" +:+ c) <$> []) +:+ ")")
                        +:+ ")") = Ok r ∧ nullable r = true) as (r & -> & Hr).
  { eexists. split; by vm_compute. }
  simpl. f_equal. apply filter_all. intros c _. apply Is_true_true.
  unfold matches. destruct (list_ascii_of_string c); simpl; by rewrite Hr.
Qed.

(** *** Parentheses in group names *)

Lemma opens_app s t : opens (s ++ t) = opens s + opens t.
Proof. unfold opens. by rewrite filter_app, length_app. Qed.

Lemma closes_app s t : closes (s ++ t) = closes s + closes t.
Proof. unfold closes. by rewrite filter_app, length_app. Qed.

Lemma opens_cons c p :
  opens (c :: p) = (if Ascii.eqb c "(" then 1 else 0) + opens p.
Proof.
  unfold opens. rewrite filter_cons.
  destruct (Ascii.eqb_spec c "(") as [->|Hne].
  - by rewrite decide_True.
  - by rewrite decide_False.
Qed.

Lemma closes_cons c p :
  closes (c :: p) = (if Ascii.eqb c ")" then 1 else 0) + closes p.
Proof.
  unfold closes. rewrite filter_cons.
  destruct (Ascii.eqb_spec c ")") as [->|Hne].
  - by rewrite decide_True.
  - by rewrite decide_False.
Qed.

(** A pattern that compiles has as many opening as closing parentheses,
    counting the groups still open. *)
Lemma parse_Ok_balanced stack top p r :
  parse stack top p = Ok r → length stack + opens p = closes p.
Proof.
  revert stack top. induction p as [|c p IH]; intros stack top.
  - simpl. by destruct stack.
  - rewrite opens_cons, closes_cons. simpl parse.
    destruct (Ascii.eqb_spec c "(") as [->|Hopen].
    { intros Hp. apply IH in Hp. simpl in *. lia. }
    destruct (Ascii.eqb c ")").
    { destruct stack as [|outer stack]; [done|].
      intros Hp. apply IH in Hp. simpl in *. lia. }
    destruct (Ascii.eqb c "|"); [by apply IH|].
    destruct (Ascii.eqb c "*").
    { destruct (items top) as [|r0 its]; [done|].
      destruct (is_repeat r0); [done|]. by apply IH. }
    destruct (Ascii.eqb c "."); [by apply IH|].
    destruct (unmodelled_special c); [done|]. by apply IH.
Qed.

(** Outside the fragment only through a character outside it. *)
Lemma parse_Unmodelled stack top p :
  parse stack top p = Raise Unmodelled →
  ∃ c, c ∈ p ∧ unmodelled_special c = true.
Proof.
  revert stack top. induction p as [|c p IH]; intros stack top; simpl.
  - by destruct stack.
  - assert (∀ st tp, parse st tp p = Raise Unmodelled →
                     ∃ c0, c0 ∈ c :: p ∧ unmodelled_special c0 = true) as IH'.
    { intros st tp Hp. destruct (IH _ _ Hp) as (c0 & Hc0 & Hu).
      exists c0. split; [by right|done]. }
    destruct (Ascii.eqb c "("); [by apply IH'|].
    destruct (Ascii.eqb c ")").
    { destruct stack as [|outer stack]; [done|]. by apply IH'. }
    destruct (Ascii.eqb c "|"); [by apply IH'|].
    destruct (Ascii.eqb c "*").
    { destruct (items top) as [|r0 its]; [done|].
      destruct (is_repeat r0); [done|]. by apply IH'. }
    destruct (Ascii.eqb c "."); [by apply IH'|].
    destruct (unmodelled_special c) eqn:Hu; [|by apply IH'].
    intros _. exists c. split; [by left|done].
Qed.

Lemma parse_Raise stack top p e :
  parse stack top p = Raise e → e = re_error ∨ e = Unmodelled.
Proof.
  revert stack top. induction p as [|c p IH]; intros stack top; simpl.
  - destruct stack; [done|]. intros [= <-]. by left.
  - destruct (Ascii.eqb c "("); [by apply IH|].
    destruct (Ascii.eqb c ")").
    { destruct stack as [|outer stack]; [intros [= <-]; by left|]. by apply IH. }
    destruct (Ascii.eqb c "|"); [by apply IH|].
    destruct (Ascii.eqb c "*").
    { destruct (items top) as [|r0 its]; [intros [= <-]; by left|].
      destruct (is_repeat r0); [intros [= <-]; by left|]. by apply IH. }
    destruct (Ascii.eqb c "."); [by apply IH|].
    destruct (unmodelled_special c); [intros [= <-]; by right|]. by apply IH.
Qed.

(** Evaluates the counts of the literal pieces of a pattern. *)
Ltac count_literals :=
  repeat match goal with
  | |- context [opens (chars (String ?a ?s))] =>
      let v := eval vm_compute in (opens (chars (String a s))) in
      change (opens (chars (String a s))) with v
  | |- context [closes (chars (String ?a ?s))] =>
      let v := eval vm_compute in (closes (chars (String a s))) in
      change (closes (chars (String a s))) with v
  end.

Lemma names_text_cons g G : names_text (g :: G) = chars g ++ names_text G.
Proof. reflexivity. Qed.

(** Joining with ")|(" adds as many opening as closing parentheses. *)
Lemma join_balance G :
  opens (chars (join ")|(" G)) + closes (names_text G)
  = closes (chars (join ")|(" G)) + opens (names_text G).
Proof.
  induction G as [|g G IH]; [done|].
  rewrite names_text_cons, opens_app, closes_app.
  destruct G as [|g' G].
  - simpl join. simpl names_text. unfold opens at 3, closes at 2. simpl. lia.
  - rewrite join_cons by done. rewrite !chars_app, !opens_app, !closes_app.
    count_literals. lia.
Qed.

Lemma names_text_count_names G :
  opens (names_text ((λ c, "n" +:+ c) <$> G)) = opens (names_text G) ∧
  closes (names_text ((λ c, "n" +:+ c) <$> G)) = closes (names_text G).
Proof.
  induction G as [|g G [IHo IHc]]; [done|].
  rewrite fmap_cons, !names_text_cons, !opens_app, !closes_app, IHo, IHc.
  rewrite !chars_app, opens_app, closes_app. count_literals. lia.
Qed.

Lemma modelled_join G :
  modelled (names_text G) → modelled (chars (join ")|(" G)).
Proof.
  unfold modelled. induction G as [|g G IH]; [done|].
  rewrite names_text_cons, Forall_app. intros [Hg HG].
  destruct G as [|g' G]; [done|].
  rewrite join_cons by done. rewrite !chars_app, !Forall_app.
  split; [done|]. split; [|by apply IH].
  apply (bool_decide_unpack _). by vm_compute.
Qed.

Lemma modelled_count_names G :
  modelled (names_text G) → modelled (names_text ((λ c, "n" +:+ c) <$> G)).
Proof.
  unfold modelled. induction G as [|g G IH]; [done|].
  rewrite fmap_cons, !names_text_cons, !Forall_app. intros [Hg HG].
  split; [|by apply IH]. rewrite chars_app, Forall_app. split; [|done].
  apply (bool_decide_unpack _). by vm_compute.
Qed.

(** X15: Group names whose parentheses do not pair up make the call raise
    [re.error]; no selection is returned. *)
Theorem columns_for_physics_objects_unbalanced (self : Dataset.t)
    (physics_objects : list string) :
  modelled (names_text physics_objects) →
  opens (names_text physics_objects) ≠ closes (names_text physics_objects) →
  Dataset.columns_for_physics_objects self physics_objects = Raise re_error.
Proof.
  intros Hmod Hne. unfold Dataset.columns_for_physics_objects.
  destruct (compile _) as [r|e] eqn:Hc.
  - exfalso. unfold compile in Hc. apply parse_Ok_balanced in Hc.
    revert Hc. rewrite !chars_app, !opens_app, !closes_app. count_literals.
    pose proof (join_balance physics_objects).
    pose proof (join_balance ((λ c, "n" +:+ c) <$> physics_objects)).
    destruct (names_text_count_names physics_objects) as [Ho Hcl].
    simpl. lia.
  - simpl. unfold compile in Hc.
    destruct (parse_Raise _ _ _ _ Hc) as [->| ->]; [done|].
    exfalso. apply parse_Unmodelled in Hc as (c & Hin & Hu).
    assert (modelled (chars
              ("(" +:+ ("(" +:+ join ")|(" physics_objects +:+ ")_.*") +:+
               ")|(" +:+
               ("(" +:+ join ")|(" ((λ c, "n" +:+ c) <$> physics_objects)
                +:+ ")") +:+ ")"))) as Hall.
    { unfold modelled. rewrite !chars_app, !Forall_app.
      pose proof (modelled_join _ Hmod).
      pose proof (modelled_join _ (modelled_count_names _ Hmod)).
      repeat split; try done; apply (bool_decide_unpack _); by vm_compute. }
    unfold modelled in Hall. rewrite Forall_forall in Hall.
    specialize (Hall c Hin). congruence.
Qed.

End physics_objects_facts.

Section physics_objects_projected.
Variable set_order : list string → gset string → list string.
Hypothesis set_order_perm : ∀ l X, set_order l X ≡ₚ elements X.

(** X16: What [columns_for_physics_objects] returns can be handed to
    [select_columns]: on a table whose names are identifiers, distinct
    when letter case is ignored, and which has the identifying columns,
    the projection returns, with the selected and the identifying
    columns. *)
Theorem physics_objects_then_select (self : Dataset.t)
    (physics_objects cols : list string) :
  well_named (Dataset.columns self) →
  Dataset.columns_for_physics_objects self physics_objects = Ok cols →
  (∀ n, n ∈ ["dataset"; "run"; "luminosityBlock"; "event"] →
        n ∈ Dataset.columns self) →
  ∃ new, Dataset.select_columns set_order self cols = Ok new ∧
         ∀ n, n ∈ Dataset.columns new ↔
              n ∈ cols ∨ n ∈ ["dataset"; "run"; "luminosityBlock"; "event"].
Proof.
  intros [Hids Hnd] Hsel Hid.
  assert (∀ n, n ∈ cols → n ∈ Dataset.columns self) as Hsub.
  { revert Hsel. unfold Dataset.columns_for_physics_objects.
    destruct (re.compile _) as [r|e]; [|done]. simpl. intros [= <-] n Hn.
    by apply list_elem_of_filter in Hn as [_ Hn]. }
  assert (identifiers cols) as Hcols.
  { apply Forall_forall. intros n Hn.
    by apply (proj1 (Forall_forall _ _) Hids), Hsub. }
  destruct (sources_exist set_order set_order_perm self cols) as [cs Hs].
  { intros n Hn.
    assert (n ∈ Dataset.columns self) as Hin
      by (destruct Hn as [Hn|Hn]; [by apply Hsub|by apply Hid]).
    destruct (lookup_column_is_Some n (Dataset.dataframe self))
      as (c & Hc & _); [|done|done|by exists c].
    by apply (proj1 (Forall_forall _ _) Hids). }
  pose proof (select_columns_Ok set_order set_order_perm _ _ _ Hs) as Hok.
  eexists. split; [exact Hok|].
  intros n.
  rewrite (select_columns_names set_order set_order_perm self cols _ Hcols Hok).
  apply (elem_of_order set_order set_order_perm).
Qed.

End physics_objects_projected.

(** ** The further properties of the selection at the sample data *)

Lemma columns_for_physics_objects_complete_witness :
  ∃ cols, Dataset.columns_for_physics_objects demo_dataset (["Electron"] ++ ["Muon"])
          = Ok cols ∧ "nElectron" ∈ cols.
Proof.
  apply columns_for_physics_objects_complete;
    apply (bool_decide_unpack _); by vm_compute.
Defined.

Lemma columns_for_physics_objects_exact_witness :
  Dataset.columns_for_physics_objects demo_dataset ["Muon"]
  = Ok (columns_for_groups ["Muon"] (Dataset.columns demo_dataset)).
Proof.
  apply columns_for_physics_objects_exact.
  - apply (bool_decide_unpack _). by vm_compute.
  - apply (proj1 (Forall_forall
             (λ c, startswith c (Dataset.count_column_for_physics_object "Muon")
                   = true →
                   c = Dataset.count_column_for_physics_object "Muon")
             (Dataset.columns demo_dataset))).
    apply (bool_decide_unpack _). by vm_compute.
Defined.

Lemma columns_for_physics_objects_unbalanced_witness :
  Dataset.columns_for_physics_objects demo_dataset ["Jet("; "Muon"]
  = Raise re_error.
Proof.
  apply columns_for_physics_objects_unbalanced.
  - apply (bool_decide_unpack _). by vm_compute.
  - apply (bool_decide_unpack _). by vm_compute.
Defined.

Lemma physics_objects_then_select_witness :
  ∃ cols new,
    Dataset.columns_for_physics_objects demo_dataset ["Muon"] = Ok cols ∧
    Dataset.select_columns elements_order demo_dataset cols = Ok new ∧
    ∀ n, n ∈ Dataset.columns new ↔
         n ∈ cols ∨ n ∈ ["dataset"; "run"; "luminosityBlock"; "event"].
Proof.
  assert (∃ cols, Dataset.columns_for_physics_objects demo_dataset ["Muon"]
                  = Ok cols) as (cols & Hcols).
  { eexists. by vm_compute. }
  destruct (physics_objects_then_select elements_order elements_order_perm
              demo_dataset ["Muon"] cols well_named_demo Hcols)
    as (new & Hnew & Hnames).
  { apply (proj1 (Forall_forall (λ n, n ∈ Dataset.columns demo_dataset)
                    ["dataset"; "run"; "luminosityBlock"; "event"])).
    apply (bool_decide_unpack _). by vm_compute. }
  exists cols, new. exact (conj Hcols (conj Hnew Hnames)).
Defined.

(** ** More on the accumulator *)

Section accumulator_guard.
Context `{Addable V}.

(** X17: The truth-value guard of [addInPlace] cannot be told from a test for
    [None] exactly when every falsy value of the type is left-neutral for
    [+=]. *)
Theorem addInPlace_guard_unobservable :
  (∀ a b : V, Accumulator.addInPlace (Some a) (Some b)
              = py_iadd (Some a) (Some b)) ↔
  (∀ a b : V, truth a = false → iadd a b = Ok b).
Proof.
  split.
  - intros Hsame a b Ha. specialize (Hsame a b).
    unfold Accumulator.addInPlace in Hsame. simpl in Hsame.
    rewrite Ha in Hsame. destruct (iadd a b) as [v|e]; [|done].
    simpl in Hsame. by injection Hsame as ->.
  - intros Hneutral a b. unfold Accumulator.addInPlace. simpl.
    destruct (truth a) eqn:Ha; [done|]. by rewrite Hneutral.
Qed.

End accumulator_guard.

Lemma add_all_int (a : Z) (zs : list Z) :
  add_all (Some a) (Some <$> zs) = Ok (Some (a + foldr Z.add 0 zs)%Z).
Proof.
  revert a. induction zs as [|z zs IH]; intros a; simpl.
  - by rewrite Z.add_0_r.
  - unfold Accumulator.addInPlace. simpl. case_bool_decide as Ha; simpl.
    + unfold mbind, result_bind. rewrite IH. by rewrite Z.add_assoc.
    + subst a. unfold mbind, result_bind.
      rewrite IH. by rewrite Z.add_0_l.
Qed.

(** X18: An accumulator of Python integers, registered with [None]: with no
    term added its value stays [None]; after any terms, zeros included, it
    is their sum. *)
Theorem add_all_int_sum :
  add_all (V:=Z) None [] = Ok None ∧
  ∀ (z : Z) (zs : list Z),
    add_all None (Some <$> (z :: zs)) = Ok (Some (z + foldr Z.add 0 zs)%Z).
Proof.
  split; [done|]. intros z zs. rewrite fmap_cons. simpl.
  unfold mbind, result_bind. apply add_all_int.
Qed.

(** X19: For Counters, [addInPlace] is the Counter's own [+=] exactly when the
    existing Counter has a key or the new Counter holds positive counts
    only. *)
Theorem addInPlace_Counter (a b : gmap string Z) :
  Accumulator.addInPlace (Some a) (Some b) = py_iadd (Some a) (Some b) ↔
  a ≠ ∅ ∨ ∀ k v, b !! k = Some v → (0 < v)%Z.
Proof.
  unfold Accumulator.addInPlace. simpl.
  destruct (decide (a = ∅)) as [->|Hne].
  - rewrite bool_decide_eq_false_2 by (by intros Hx; apply Hx).
    rewrite (left_id_L ∅ (union_with _)). unfold keep_positive. split.
    + intros [= Hb]. right. intros k v Hk. rewrite Hb in Hk.
      by apply map_lookup_filter_Some in Hk as [_ Hv].
    + intros [Hx|Hpos]; [done|]. do 2 f_equal. symmetry.
      apply map_filter_id. intros k v Hk. by apply (Hpos k v).
  - rewrite bool_decide_eq_true_2 by done. split; [by left|done].
Qed.

Lemma addInPlace_guard_unobservable_witness :
  Accumulator.addInPlace (Some 0%Z) (Some 5%Z) = py_iadd (Some 0%Z) (Some 5%Z).
Proof.
  apply (proj2 (addInPlace_guard_unobservable (V:=Z))).
  intros a b Ha. simpl in Ha. apply bool_decide_eq_false in Ha.
  apply dec_stable in Ha. subst a. reflexivity.
Defined.

Lemma addInPlace_Counter_witness :
  Accumulator.addInPlace (Some (∅ : gmap string Z)) (Some {[ "x" := 3%Z ]})
  = py_iadd (Some (∅ : gmap string Z)) (Some {[ "x" := 3%Z ]}).
Proof.
  apply (proj2 (addInPlace_Counter ∅ {[ "x" := 3%Z ]})). right.
  intros k v Hk. apply lookup_singleton_Some in Hk as [_ <-]. lia.
Defined.

(** ** More on App *)

Section app_more.
Context {W : Type}.

(** X20: An unknown dataset: when the dataset manager raises for the name,
    [read_dataset] raises the same exception; nothing is printed and the
    executor is not called. *)
Theorem read_dataset_lookup_failure (self : App.t W) (dataset_name : string)
    (σ : W * list App.event) (dm : App.DatasetManager W)
    (w0 w1 : W) (tr0 : list App.event) (e : exn) :
  App.datasets self σ = (Ok dm, (w0, tr0)) →
  App.get_file_list dm dataset_name w0 = (Raise e, w1) →
  App.read_dataset self dataset_name σ
  = (Raise e, (w1, tr0 ++ [App.GetFileList dataset_name])).
Proof.
  intros Hds Hfl. rewrite read_dataset_unfold, Hds. by rewrite Hfl.
Qed.

(** X21: A failing [provision]: [read_dataset] raises the same exception and
    asks the dataset manager and the executor for nothing. *)
Theorem read_dataset_provision_failure (self : App.t W) (dataset_name : string)
    (w w' : W) (tr : list App.event) (e : exn) :
  App.provisioned (App.dataset_manager self) w = false →
  App.provision (App.dataset_manager self) w = (Raise e, w') →
  App.read_dataset self dataset_name (w, tr)
  = (Raise e, (w', tr ++ [App.Provision])).
Proof.
  intros Hp Hprov. rewrite read_dataset_unfold, datasets_unprovisioned by done.
  by rewrite Hprov.
Qed.

(** X22: Provisioned once: when [provision] sets the flag and the other calls
    leave a set flag alone, a [read_dataset] that returned leaves the
    manager provisioned, and no later [read_dataset] calls [provision]. *)
Theorem read_dataset_provisions_once (self : App.t W) (n n' : string)
    (σ σ' : W * list App.event) (d : Dataset.t) :
  let dm := App.dataset_manager self in
  (∀ w, (App.provision dm w).1 = Ok tt →
        App.provisioned dm (App.provision dm w).2 = true) →
  (∀ m w, App.provisioned dm w = true →
          App.provisioned dm (App.get_file_list dm m w).2 = true) →
  (∀ m fs w, App.provisioned dm w = true →
             App.provisioned dm (App.read_files (App.executor self) m fs w).2
             = true) →
  App.read_dataset self n σ = (Ok d, σ') →
  App.provisioned dm σ'.1 = true ∧
  App.provisions (App.read_dataset self n' σ').2.2 = App.provisions σ'.2.
Proof.
  intros dm Hsets Hlist Hread Hok. subst dm.
  assert (App.provisioned (App.dataset_manager self) σ'.1 = true) as Hflag.
  { revert Hok. rewrite read_dataset_unfold. destruct σ as [w tr].
    destruct (App.provisioned (App.dataset_manager self) w) eqn:Hp.
    - rewrite datasets_provisioned by done.
      specialize (Hlist n w Hp).
      destruct (App.get_file_list (App.dataset_manager self) n w)
        as [[fs|e] w1]; [|done].
      specialize (Hread n fs w1 Hlist). intros [= _ <-]. exact Hread.
    - rewrite datasets_unprovisioned by done.
      specialize (Hsets w).
      destruct (App.provision (App.dataset_manager self) w) as [[[]|e] w0];
        [|done].
      specialize (Hsets eq_refl). simpl in Hsets. simpl.
      specialize (Hlist n w0 Hsets).
      destruct (App.get_file_list (App.dataset_manager self) n w0)
        as [[fs|e] w1]; [|done].
      specialize (Hread n fs w1 Hlist). intros [= _ <-]. exact Hread. }
  split; [exact Hflag|].
  destruct σ' as [w' tr']. simpl in Hflag.
  rewrite read_dataset_unfold, datasets_provisioned by done.
  destruct (App.get_file_list (App.dataset_manager self) n' w')
    as [[fs|e] w1]; simpl;
    rewrite ?provisions_app, ?provisions_cons, ?provisions_nil; simpl; lia.
Qed.

End app_more.

Lemma read_dataset_lookup_failure_witness :
  App.read_dataset demo_app "QCD" (true, [])
  = (Raise (LookupFailure "QCD"), (true, [App.GetFileList "QCD"])).
Proof.
  apply (read_dataset_lookup_failure demo_app "QCD" (true, []) demo_manager
           true true [] (LookupFailure "QCD")); reflexivity.
Defined.

Lemma read_dataset_provision_failure_witness :
  let failing : App.DatasetManager bool := {|
    App.provisioned w := w;
    App.provision w := (Raise (LookupFailure "demo_datasets.csv"), w);
    App.get_names w := (Ok [], w);
    App.get_file_list n w := (Ok [], w)
  |} in
  App.read_dataset (App.mk demo_executor failing) "DY Jets" (false, [])
  = (Raise (LookupFailure "demo_datasets.csv"), (false, [App.Provision])).
Proof.
  intros failing.
  apply (read_dataset_provision_failure (App.mk demo_executor failing)
           "DY Jets" false false [] (LookupFailure "demo_datasets.csv"));
    reflexivity.
Defined.

Lemma read_dataset_provisions_once_witness :
  ∃ d σ', App.read_dataset demo_app "DY Jets" (false, []) = (Ok d, σ') ∧
          App.provisioned demo_manager σ'.1 = true ∧
          App.provisions (App.read_dataset demo_app "DY Jets" σ').2.2
          = App.provisions σ'.2.
Proof.
  assert (∃ d σ', App.read_dataset demo_app "DY Jets" (false, []) = (Ok d, σ'))
    as (d & σ' & Hok).
  { eexists _, _. by vm_compute. }
  exists d, σ'. split; [exact Hok|].
  apply (read_dataset_provisions_once demo_app "DY Jets" "DY Jets" (false, [])
           σ' d); [| | |exact Hok].
  - intros w _. reflexivity.
  - intros m w Hw. simpl. by destruct (bool_decide (m = "DY Jets")).
  - intros m fs w Hw. exact Hw.
Defined.

(** X23: Tagging keeps a table well named: when the names of the
    dataframe are identifiers, distinct when letter case is ignored, so
    are the names of the Dataset's table. *)
Theorem Dataset_init_well_named (name : string) (df : spark.DataFrame)
    (self : Dataset.t) :
  well_named (spark.columns df) →
  Dataset.__init__ name df = Ok self →
  well_named (Dataset.columns self).
Proof.
  intros [Hids Hnd]. destruct (decide ("dataset" ∈ spark.columns df)) as [Hin|Hno].
  { rewrite init_tagged by done. by intros [= <-]. }
  rewrite init_untagged by done. intros [= <-].
  unfold Dataset.columns, spark.columns. simpl. case_bool_decide as Hvar.
  - assert (∀ old : spark.column,
              spark.lower (spark.col_name
                 (if bool_decide (spark.lower (spark.col_name old)
                                  = spark.lower "dataset")
                  then tag_column name (spark.df_count df) else old))
              = spark.lower (spark.col_name old)) as Hlow.
    { intros old. case_bool_decide as Hold; [|done]. by rewrite Hold. }
    split.
    + apply Forall_forall. intros n (c' & -> & Hc')%list_elem_of_fmap.
      apply list_elem_of_fmap in Hc' as (old & -> & Hold).
      case_bool_decide; [done|].
      apply (proj1 (Forall_forall _ _) Hids), list_elem_of_fmap. by exists old.
    + unfold spark.columns in Hnd.
      rewrite <- !list_fmap_compose. rewrite <- list_fmap_compose in Hnd.
      by rewrite (list_fmap_ext _ (spark.lower ∘ spark.col_name)
                    (spark.df_columns df)) by (intros; apply Hlow).
  - split.
    + rewrite fmap_app. apply Forall_app. split; [done|]. by repeat constructor.
    + rewrite !fmap_app. apply NoDup_app. split; [exact Hnd|]. split.
      * intros n Hn Hn'. apply list_elem_of_singleton in Hn'. by subst n.
      * apply NoDup_singleton.
Qed.

Lemma Dataset_init_well_named_witness :
  ∃ self, Dataset.__init__ "DY Jets" demo_frame = Ok self ∧
          well_named (Dataset.columns self).
Proof.
  assert (∃ self, Dataset.__init__ "DY Jets" demo_frame = Ok self)
    as (self & Hinit).
  { eexists. by vm_compute. }
  exists self. split; [exact Hinit|].
  apply (Dataset_init_well_named "DY Jets" demo_frame self); [|exact Hinit].
  unfold well_named, identifiers. apply (bool_decide_unpack _). by vm_compute.
Defined.

(** ** The engine's reading of names, seen through [Dataset] *)

Section engine_names.
Import spark.
Variable set_order : list string → gset string → list string.
Hypothesis set_order_perm : ∀ l X, set_order l X ≡ₚ elements X.

Lemma lookup_column_own (df : DataFrame) (c : column) :
  well_named (columns df) → c ∈ df_columns df →
  lookup_column (col_name c) df = Some c.
Proof.
  intros [Hids Hnd] Hc.
  rewrite (lookup_column_distinct (col_name c) df c); [by rewrite rename_self| |done..].
  apply (proj1 (Forall_forall _ _) Hids), list_elem_of_fmap. by exists c.
Qed.

(** X24: The wildcard.  On a table whose names are identifiers, distinct
    when letter case is ignored, and which has the four identifying
    columns, the request ["*"] is answered with every column of the table,
    booleans widened, and the four identifying columns once more. *)
Theorem select_columns_wildcard (self : Dataset.t) :
  well_named (Dataset.columns self) →
  (∀ n, n ∈ ["dataset"; "run"; "luminosityBlock"; "event"] →
        n ∈ Dataset.columns self) →
  ∃ new, Dataset.select_columns set_order self ["*"] = Ok new ∧
         length (Dataset.columns new) = length (Dataset.columns self) + 4 ∧
         ∀ c, c ∈ df_columns (Dataset.dataframe self) →
              compatible c ∈ df_columns (Dataset.dataframe new).
Proof.
  intros Hwf Hid. pose proof Hwf as [Hids Hnd].
  set (df := Dataset.dataframe self).
  assert (∀ n, n ∈ Dataset.retained →
               ∃ c, lookup_column n df = Some c ∧ c ∈ df_columns df) as Hfour.
  { intros n Hn. apply lookup_column_is_Some; [|done|by apply Hid].
    by apply (proj1 (Forall_forall _ _) identifiers_retained). }
  destruct (Hfour "dataset") as (c1 & Hl1 & Hc1); [set_solver|].
  destruct (Hfour "run") as (c2 & Hl2 & Hc2); [set_solver|].
  destruct (Hfour "luminosityBlock") as (c3 & Hl3 & Hc3); [set_solver|].
  destruct (Hfour "event") as (c4 & Hl4 & Hc4); [set_solver|].
  assert (Forall2 (λ n cs, named df n = Ok cs) ("*" :: Dataset.retained)
            [df_columns df; [c1]; [c2]; [c3]; [c4]]) as Hcanon.
  { unfold Dataset.retained.
    constructor; [done|].
    constructor; [by rewrite named_name, Hl1 by done|].
    constructor; [by rewrite named_name, Hl2 by done|].
    constructor; [by rewrite named_name, Hl3 by done|].
    constructor; [by rewrite named_name, Hl4 by done|].
    constructor. }
  assert ("*" :: Dataset.retained
          ≡ₚ set_order ["*"] (Dataset.columns2 ["*"])) as Hp.
  { rewrite set_order_perm. unfold Dataset.columns2.
    rewrite <- list_to_set_app_L. symmetry. apply elements_list_to_set.
    apply (bool_decide_unpack _). by vm_compute. }
  destruct (Permutation_Forall2 Hp Hcanon) as (css & Hcss & Ht).
  apply concat_Permutation in Hcss. simpl in Hcss.
  assert (sources set_order self ["*"] (concat css)) as Hs.
  { split.
    - rewrite select_names_unfold. fold df.
      by rewrite (proj2 (traverse_Ok_Forall2 _ _ _) Ht).
    - apply Forall_forall. intros c Hc. rewrite <- Hcss in Hc.
      apply lookup_column_own; [done|].
      apply elem_of_app in Hc as [Hc|Hc]; [done|].
      rewrite !elem_of_cons, elem_of_nil in Hc. destruct_or?; by subst. }
  eexists. split; [by apply (select_columns_Ok set_order set_order_perm)|].
  unfold Dataset.columns, columns. simpl. rewrite !length_fmap, <- Hcss.
  split.
  - subst df. rewrite length_app. simpl. lia.
  - intros c Hc. apply list_elem_of_fmap. exists c. split; [done|].
    rewrite <- Hcss. apply elem_of_app. by left.
Qed.

(** X25: Letter case.  On such a table a requested identifier that equals
    the name of a column when letter case is ignored, and none of the four
    identifying names, is answered from that column: the result has a
    column of the requested name that holds the column, booleans
    widened. *)
Theorem select_columns_case_variant (self : Dataset.t) (n : string)
    (c0 : column) :
  well_named (Dataset.columns self) →
  (∀ m, m ∈ ["dataset"; "run"; "luminosityBlock"; "event"] →
        m ∈ Dataset.columns self) →
  identifier n = true →
  c0 ∈ df_columns (Dataset.dataframe self) →
  lower (col_name c0) = lower n →
  lower n ∉ lower <$> ["dataset"; "run"; "luminosityBlock"; "event"] →
  ∃ new, Dataset.select_columns set_order self [n] = Ok new ∧
         n ∈ Dataset.columns new ∧
         lookup_column n (Dataset.dataframe new)
         = Some (compatible (rename n c0)).
Proof.
  intros [Hids Hnd] Hid Hn Hc0 Hlow _.
  assert (lookup_column n (Dataset.dataframe self) = Some (rename n c0))
    as Hl by (by apply lookup_column_distinct).
  destruct (sources_exist set_order set_order_perm self [n]) as [cs Hs].
  { intros m [Hm|Hm].
    - apply list_elem_of_singleton in Hm as ->. by eexists.
    - destruct (lookup_column_is_Some m (Dataset.dataframe self))
        as (c & Hc & _); [|done|by apply Hid|by exists c].
      by apply (proj1 (Forall_forall _ _) identifiers_retained). }
  eexists. split; [by apply (select_columns_Ok set_order set_order_perm)|].
  destruct (sources_has set_order set_order_perm self [n] cs n Hs)
    as (c & Hl' & Hc & Hname);
    [left; by left|by apply identifier_not_star|].
  split.
  - unfold Dataset.columns, columns. simpl. rewrite compatible_fmap_names.
    apply list_elem_of_fmap. by exists c.
  - simpl. apply (projected_lookup (Dataset.dataframe self));
      [by destruct Hs|done|].
    exists c. split; [done|]. by rewrite Hname.
Qed.

End engine_names.

(** X26: Tagging a table that has the column in another letter case.  When
    the names of the frame are identifiers and none is "dataset", every
    column whose name is "dataset" in another letter case is replaced,
    where it stands, by the column that holds [name]; the other columns
    stay, and no column is added. *)
Theorem Dataset_init_case_variant (name : string) (df : spark.DataFrame)
    (n : string) :
  identifiers (spark.columns df) →
  "dataset" ∉ spark.columns df →
  n ∈ spark.columns df → spark.lower n = "dataset" →
  ∃ self,
    Dataset.__init__ name df = Ok self ∧
    spark.df_columns (Dataset.dataframe self)
    = (λ c, if bool_decide (spark.lower (spark.col_name c) = "dataset")
            then spark.mk_column "dataset" "string"
                   (replicate (spark.df_count df) (spark.Str name))
            else c) <$> spark.df_columns df ∧
    n ∉ Dataset.columns self.
Proof.
  intros _ Hno Hn Hlow. eexists. split; [by apply init_untagged|].
  change (spark.lower "dataset") with "dataset".
  cbn [Dataset.dataframe spark.df_columns].
  rewrite bool_decide_eq_true_2
    by (rewrite <- Hlow; apply list_elem_of_fmap; by exists n).
  split; [done|].
  unfold Dataset.columns, spark.columns. cbn [Dataset.dataframe spark.df_columns].
  intros (c' & Heq & Hc')%list_elem_of_fmap.
  apply list_elem_of_fmap in Hc' as (c & -> & Hc).
  revert Heq. case_bool_decide as Hc''.
  - intros ->. by apply Hno.
  - intros ->. by apply Hc''.
Qed.

Lemma select_columns_wildcard_witness :
  ∃ new, Dataset.select_columns elements_order demo_dataset ["*"] = Ok new ∧
         length (Dataset.columns new) = 11 ∧
         ("Muon_tightId", "array<int>") ∈ Dataset.columns_with_types new.
Proof.
  destruct (select_columns_wildcard elements_order elements_order_perm
              demo_dataset well_named_demo) as (new & Hnew & Hlen & Hall).
  { apply (proj1 (Forall_forall (λ n, n ∈ Dataset.columns demo_dataset)
                    ["dataset"; "run"; "luminosityBlock"; "event"])).
    apply (bool_decide_unpack _). by vm_compute. }
  exists new. split; [exact Hnew|]. split; [exact Hlen|].
  apply list_elem_of_fmap.
  exists (compatible (spark.mk_column "Muon_tightId" "array<boolean>"
            [spark.BoolArray [Some true; None; Some false];
             spark.BoolArray []])).
  split; [done|]. apply Hall.
  apply (bool_decide_unpack _). by vm_compute.
Defined.

Lemma select_columns_case_variant_witness :
  ∃ new, Dataset.select_columns elements_order demo_dataset ["electron_pt"]
         = Ok new ∧
         "electron_pt" ∈ Dataset.columns new ∧
         spark.lookup_column "electron_pt" (Dataset.dataframe new)
         = Some (spark.mk_column "electron_pt" "array<float>"
                   [spark.Null; spark.Null]).
Proof.
  apply (select_columns_case_variant elements_order elements_order_perm
           demo_dataset "electron_pt"
           (spark.mk_column "Electron_pt" "array<float>"
              [spark.Null; spark.Null]) well_named_demo).
  - apply (proj1 (Forall_forall (λ n, n ∈ Dataset.columns demo_dataset)
                    ["dataset"; "run"; "luminosityBlock"; "event"])).
    apply (bool_decide_unpack _). by vm_compute.
  - done.
  - apply (bool_decide_unpack _). by vm_compute.
  - done.
  - apply (bool_decide_unpack _). by vm_compute.
Defined.

Lemma Dataset_init_case_variant_witness :
  ∃ self,
    Dataset.__init__ "new" (frame_of_names ["run"; "Dataset"]) = Ok self ∧
    Dataset.columns self = ["run"; "dataset"].
Proof.
  destruct (Dataset_init_case_variant "new" (frame_of_names ["run"; "Dataset"])
              "Dataset") as (self & Hinit & Hcols & _).
  - unfold identifiers. apply (bool_decide_unpack _). by vm_compute.
  - apply (bool_decide_unpack _). by vm_compute.
  - apply (bool_decide_unpack _). by vm_compute.
  - done.
  - exists self. split; [exact Hinit|].
    unfold Dataset.columns, spark.columns. by rewrite Hcols.
Defined.

(** X11: For plain group names, the columns returned are those columns of the
    table, in the order of the table, whose name starts with a group
    before the last, or with the last group and an underscore, or with the
    count name of any group. *)
Theorem columns_for_physics_objects_prefixes (self : Dataset.t)
    (G : list string) (g : string) :
  Forall plain G → plain g →
  ∃ cols,
    Dataset.columns_for_physics_objects self (G ++ [g]) = Ok cols ∧
    cols `sublist_of` Dataset.columns self ∧
    ∀ c, c ∈ cols ↔
         c ∈ Dataset.columns self ∧
         ((∃ g', g' ∈ G ∧ startswith c g' = true) ∨
          startswith c (g +:+ "_") = true ∨
          (∃ g', g' ∈ G ++ [g] ∧
                 startswith c (Dataset.count_column_for_physics_object g')
                 = true)).
Proof.
  intros HG Hg. eexists. split; [by apply columns_for_physics_objects_plain|].
  split; [apply sublist_filter|].
  intros c. rewrite list_elem_of_filter, Is_true_true. unfold selects.
  rewrite !orb_true_iff, !existsb_elem_of. tauto.
Qed.

Lemma columns_for_physics_objects_prefixes_witness :
  ∃ cols,
    Dataset.columns_for_physics_objects demo_dataset (["Electron"] ++ ["Muon"])
    = Ok cols ∧
    cols `sublist_of` Dataset.columns demo_dataset ∧
    ∀ c, c ∈ cols ↔
         c ∈ Dataset.columns demo_dataset ∧
         ((∃ g', g' ∈ ["Electron"] ∧ startswith c g' = true) ∨
          startswith c ("Muon" +:+ "_") = true ∨
          (∃ g', g' ∈ ["Electron"] ++ ["Muon"] ∧
                 startswith c (Dataset.count_column_for_physics_object g')
                 = true)).
Proof.
  apply columns_for_physics_objects_prefixes;
    apply (bool_decide_unpack _); by vm_compute.
Defined.
